(** * Dataview-to-Bases transformer: a shallow embedding

    This development embeds the class [DataviewToBasesTransformer]
    (src/dataview-parser/transformer.ts) and the query types it consumes
    (src/dataview-parser/query-types.ts), and states the properties of the
    lowering from a parsed Dataview query to a Bases configuration.

    Conventions of the embedding:
    - JavaScript strings are [string]s of 8-bit characters; [toLowerCase],
      [trim] and the regular-expression classes [\s], [\d] and [[a-zA-Z]]
      are given on the ASCII range.
    - JavaScript numbers are integers ([Z]), printed in decimal.
    - The values the transformer returns ([any] in the source) are
      [jsval]: [null], a string, or an object with one key holding an
      array ([{and: [...]}], [{or: [...]}], [{not: [...]}]).
    - An exception is the [Throw] branch of [outcome].
    - The object literals used as lookup tables are association lists read
      by their own keys; the [display] and [formulas] objects of the output
      are finite maps with string keys. *)

From Stdlib Require Import String Ascii ZArith NArith List Bool Lia.
From Stdlib Require Import DecimalString DecimalN.
From stdpp Require Import gmap strings list fin_maps.
Import ListNotations.

Local Open Scope Z_scope.
Local Set Warnings "-register-all".

(** ** Strings as the JavaScript runtime treats them *)

Module JsString.

Definition code (c : ascii) : N := N_of_ascii c.

Definition is_space (c : ascii) : bool :=
  (N.eqb (code c) 32 || (N.leb 9 (code c) && N.leb (code c) 13))%bool.

Definition is_digit (c : ascii) : bool :=
  (N.leb 48 (code c) && N.leb (code c) 57)%bool.

Definition is_upper (c : ascii) : bool :=
  (N.leb 65 (code c) && N.leb (code c) 90)%bool.

Definition is_alpha (c : ascii) : bool :=
  (is_upper c || (N.leb 97 (code c) && N.leb (code c) 122))%bool.

Definition lower_char (c : ascii) : ascii :=
  if is_upper c then ascii_of_N (code c + 32) else c.

Fixpoint map_chars (f : ascii -> ascii) (s : string) : string :=
  match s with
  | EmptyString => EmptyString
  | String c r => String (f c) (map_chars f r)
  end.

Fixpoint exists_char (p : ascii -> bool) (s : string) : bool :=
  match s with
  | EmptyString => false
  | String c r => (p c || exists_char p r)%bool
  end.

(** [s.toLowerCase()] *)
Definition toLowerCase (s : string) : string := map_chars lower_char s.

Fixpoint drop_while (p : ascii -> bool) (s : string) : string :=
  match s with
  | EmptyString => EmptyString
  | String c r => if p c then drop_while p r else s
  end.

Fixpoint take_while (p : ascii -> bool) (s : string) : string :=
  match s with
  | EmptyString => EmptyString
  | String c r => if p c then String c (take_while p r) else EmptyString
  end.

Definition is_empty (s : string) : bool :=
  match s with EmptyString => true | _ => false end.

Fixpoint trimEnd (s : string) : string :=
  match s with
  | EmptyString => EmptyString
  | String c r =>
      let r' := trimEnd r in
      if (is_space c && is_empty r')%bool then EmptyString else String c r'
  end.

(** [s.trim()] *)
Definition trim (s : string) : string := trimEnd (drop_while is_space s).

(** [s.startsWith(p)] *)
Definition startsWith (s p : string) : bool := String.prefix p s.

Fixpoint last_char (s : string) : option ascii :=
  match s with
  | EmptyString => None
  | String c EmptyString => Some c
  | String _ r => last_char r
  end.

(** [s.endsWith(c)] for a one-character suffix [c] *)
Definition endsWithChar (s : string) (c : ascii) : bool :=
  match last_char s with
  | Some d => Ascii.eqb c d
  | None => false
  end.

Definition drop_first (s : string) : string :=
  match s with
  | EmptyString => EmptyString
  | String _ r => r
  end.

(** [s.slice(0, -1)] *)
Fixpoint drop_last (s : string) : string :=
  match s with
  | EmptyString => EmptyString
  | String _ EmptyString => EmptyString
  | String c r => String c (drop_last r)
  end.

(** [s.slice(1, -1)] *)
Definition slice_1_m1 (s : string) : string := drop_last (drop_first s).

(** [s.includes("-")] *)
Definition includes_hyphen (s : string) : bool :=
  exists_char (Ascii.eqb "-") s.

(** [s.replace(/-/g, "_")] *)
Definition hyphens_to_underscores (s : string) : string :=
  map_chars (fun c => if Ascii.eqb c "-" then "_"%char else c) s.

(** [s.replace(/\s+/g, "_")]: [in_run] tells that the previous character
    belonged to the whitespace run already replaced. *)
Fixpoint spaces_to_underscore_from (in_run : bool) (s : string) : string :=
  match s with
  | EmptyString => EmptyString
  | String c r =>
      if is_space c
      then if in_run then spaces_to_underscore_from true r
           else String "_" (spaces_to_underscore_from true r)
      else String c (spaces_to_underscore_from false r)
  end.

Definition spaces_to_underscore (s : string) : string :=
  spaces_to_underscore_from false s.

Definition dquote : ascii := ascii_of_N 34.

Definition quoted (s : string) : string :=
  String dquote (s +:+ String dquote EmptyString).

(** [s.replace(/^Q/, E).replace(/Q$/, E)], for the double quote [Q]
    and the empty string [E] *)
Definition strip_quotes (s : string) : string :=
  let s1 := match s with
            | String c r => if Ascii.eqb c dquote then r else s
            | EmptyString => s
            end in
  if endsWithChar s1 dquote then drop_last s1 else s1.

(** [String(n).padStart(2, "0")] on an already printed number *)
Definition padStart2 (s : string) : string :=
  match s with
  | EmptyString => "00"
  | String c EmptyString => String "0" s
  | _ => s
  end.

(** [xs.join(sep)] on strings *)
Fixpoint join (sep : string) (xs : list string) : string :=
  match xs with
  | [] => EmptyString
  | [x] => x
  | x :: r => x +:+ sep +:+ join sep r
  end.

(** [String(n)] for an integer [n] *)
Definition of_Z (z : Z) : string := NilZero.string_of_int (Z.to_int z).

(** The value of a run of decimal digits, most significant first. *)
Definition digits_value (s : string) : N :=
  match NilEmpty.uint_of_string s with
  | Some d => N.of_uint d
  | None => 0%N
  end.

Definition is_hex_digit (c : ascii) : bool :=
  (is_digit c
   || (N.leb 65 (code c) && N.leb (code c) 70)
   || (N.leb 97 (code c) && N.leb (code c) 102))%bool.

Definition hex_digit_value (c : ascii) : N :=
  if is_digit c then code c - 48
  else if N.leb 97 (code c) then code c - 87
  else code c - 55.

Definition hex_digits_value (s : string) : N :=
  (fix go (acc : N) (s : string) : N :=
     match s with
     | EmptyString => acc
     | String c r => go (acc * 16 + hex_digit_value c)%N r
     end) 0%N s.

(** [parseInt(s)] with no radix: leading whitespace is skipped, a sign is
    read, a [0x] prefix selects base sixteen, and the longest prefix of
    digits is the value; [None] is [NaN]. *)
Definition parseInt (s : string) : option Z :=
  let s1 := drop_while is_space s in
  let sign := if String.prefix "-" s1 then -1 else 1 in
  let s2 := if (String.prefix "-" s1 || String.prefix "+" s1)%bool
            then drop_first s1 else s1 in
  if (String.prefix "0x" s2 || String.prefix "0X" s2)%bool then
    let ds := take_while is_hex_digit (drop_first (drop_first s2)) in
    if is_empty ds then None
    else Some (sign * Z.of_N (hex_digits_value ds))
  else
    let ds := take_while is_digit s2 in
    if is_empty ds then None
    else Some (sign * Z.of_N (digits_value ds)).

(** [s.match(/(\d+)\s*([a-zA-Z]+)/)]: the leftmost match; the two
    groups are the digits and the letters. *)
Fixpoint match_duration (s : string) : option (string * string) :=
  match s with
  | EmptyString => None
  | String c r =>
      if is_digit c then
        let num := take_while is_digit s in
        let after := drop_while is_space (drop_while is_digit s) in
        let unit := take_while is_alpha after in
        if is_empty unit then match_duration r else Some (num, unit)
      else match_duration r
  end.

End JsString.

Import JsString.

(** ** The query AST (field.ts, source-types.ts, query-types.ts) *)

(** A luxon [Duration], by the components [transformLiteral] reads. *)
Record Duration := mkDuration {
  years : Z; months : Z; weeks : Z; days : Z;
  hours : Z; minutes : Z; seconds : Z
}.

(** Modelled from the spec: the type of literal values of field.ts, which
    is not among the sources (string, number, boolean, date, duration,
    null).  A luxon [DateTime] is carried by the text [toISODate()] gives;
    [LOther] is any other value (a link, an array, ...), carried by the
    text [String(value)] gives. *)
Inductive LiteralValue :=
| LString (s : string)
| LNumber (n : Z)
| LBoolean (b : bool)
| LNull
| LDateTime (isoDate : string)
| LDuration (d : Duration)
| LOther (text : string).

(** Modelled from the spec: the union [Field] of field.ts, which is not
    among the sources.  The constructors are the seven variants of the
    spec, with the fields the transformer reads ([name], [value],
    [object] and [index], [op], [left] and [right], [func] and
    [arguments], [child], [values]); [OtherField] stands for the shapes
    the transformer sends to its [default] branches. *)
Inductive Field :=
| VariableField (name : string)
| LiteralField (value : LiteralValue)
| IndexField (object index : Field)
| BinaryOpField (op : string) (left right : Field)
| FunctionField (func : Field) (arguments : list Field)
| NegatedField (child : Field)
| ListField (values : list Field)
| OtherField.

(** Modelled from the spec: the union [Source] of source-types.ts, which
    is not among the sources, with the fields [transformSource] reads;
    [OtherSource] stands for the shapes of its [default] branch. *)
Inductive Source :=
| Folder (folder : string)
| Tag (tag : string)
| Link (file : string)
| Negate (child : Source)
| SourceBinaryOp (op : string) (left right : Source)
| Empty
| OtherSource.

Record NamedField := mkNamedField { nf_name : string; nf_field : Field }.

Inductive Direction := ascending | descending.

Record QuerySortBy := mkSortBy { sb_field : Field; sb_direction : Direction }.

Inductive QueryHeader :=
| TableQuery (fields : list NamedField) (showId : bool)
| ListQuery (format : option Field) (showId : bool)
| TaskQuery
| CalendarQuery (field : NamedField).

Inductive QueryOperation :=
| WhereStep (clause : Field)
| SortByStep (fields : list QuerySortBy)
| LimitStep (amount : Field)
| FlattenStep (field : NamedField)
| GroupStep (field : NamedField)
| ExtractStep (fields : list (string * Field)).

Record Query := mkQuery {
  header : QueryHeader;
  source : Source;
  operations : list QueryOperation
}.

(** ** Values and exceptions *)

Inductive jsval :=
| JNull
| JStr (s : string)
| JObj (key : string) (items : list jsval).

Inductive error :=
| Error (message : string)
| TypeError (message : string).

Inductive outcome (A : Type) :=
| Ok (a : A)
| Throw (e : error).
Arguments Ok {A} a.
Arguments Throw {A} e.

Definition bind {A B : Type} (m : outcome A) (k : A -> outcome B) : outcome B :=
  match m with
  | Ok a => k a
  | Throw e => Throw e
  end.

Notation "'let*' x := m 'in' k" := (bind m (fun x => k))
  (at level 10, x name, m at level 100, k at level 200).

(** Interpolation in a template string. *)
Definition to_string (v : jsval) : string :=
  match v with
  | JNull => "null"
  | JStr s => s
  | JObj _ _ => "[object Object]"
  end.

(** The text [Array.prototype.join] gives an element. *)
Definition join_element (v : jsval) : string :=
  match v with
  | JNull => EmptyString
  | _ => to_string v
  end.

Definition join_values (sep : string) (vs : list jsval) : string :=
  join sep (map join_element vs).

(** Truthiness, as [if (v)] and [!v] read it. *)
Definition truthy (v : jsval) : bool :=
  match v with
  | JNull => false
  | JStr s => negb (is_empty s)
  | JObj _ _ => true
  end.

(** A read of an object literal used as a table, with the [|| fallback]
    of the source (every value in the tables is a non-empty string). *)
Fixpoint table_get (table : list (string * string)) (k : string) : option string :=
  match table with
  | [] => None
  | (k', v) :: rest => if String.eqb k' k then Some v else table_get rest k
  end.

Definition includes (xs : list string) (x : string) : bool :=
  existsb (String.eqb x) xs.

(** ** The transformer *)

(** [flattenLogicalOperations] *)
Definition flatten_step (operator : string) (op : jsval) : list jsval :=
  match op with
  | JObj key items => if String.eqb key operator then items else [op]
  | JNull => []
  | JStr _ => [op]
  end.

Definition flattenLogicalOperations (operator : string) (operations : list jsval) : jsval :=
  let flattened := flat_map (flatten_step operator) operations in
  match flattened with
  | [x] => x
  | [] => JNull
  | _ => JObj operator flattened
  end.

Definition propertyMap : list (string * string) :=
  [ ("file.path", "file.path"); ("file.name", "file.name");
    ("file.folder", "file.folder"); ("file.ext", "file.ext");
    ("file.size", "file.size"); ("file.ctime", "file.ctime");
    ("file.mtime", "file.mtime"); ("file.cday", "file.ctime");
    ("file.mday", "file.mtime"); ("tags", "tags") ].

(** [mapDataviewPropertyToBaseProperty] *)
Definition mapDataviewPropertyToBaseProperty (prop : string) : string :=
  let prop := trim prop in
  match table_get propertyMap prop with
  | Some mapped => mapped
  | None =>
      if includes_hyphen prop then hyphens_to_underscores prop else prop
  end.

Definition plural (n : Z) : string := if Z.eqb n 1 then EmptyString else "s".

Definition duration_text (n : Z) (unit : string) : string :=
  quoted (of_Z n +:+ " " +:+ unit +:+ plural n).

(** [transformLiteral] *)
Definition transformLiteral (value : LiteralValue) : string :=
  match value with
  | LString s => quoted s
  | LNumber n => of_Z n
  | LBoolean b => if b then "true" else "false"
  | LNull => "null"
  | LDateTime iso => "date(" +:+ quoted iso +:+ ")"
  | LDuration dur =>
      if negb (Z.eqb (years dur) 0) then duration_text (years dur) "year"
      else if negb (Z.eqb (months dur) 0) then duration_text (months dur) "month"
      else if negb (Z.eqb (weeks dur) 0) then duration_text (weeks dur) "week"
      else if negb (Z.eqb (days dur) 0) then duration_text (days dur) "day"
      else if negb (Z.eqb (hours dur) 0) then duration_text (hours dur) "hour"
      else if negb (Z.eqb (minutes dur) 0) then duration_text (minutes dur) "minute"
      else if negb (Z.eqb (seconds dur) 0) then duration_text (seconds dur) "second"
      else quoted "0 days"
  | LOther text => text
  end.

Definition dateAccessors : list string :=
  ["year"; "month"; "day"; "hour"; "minute"; "second"; "millisecond"].

(** [transformIndexField], given the lowered object and, for a key that is
    not a string literal, the lowered key. *)
Definition transformIndexField (object : jsval) (index : Field)
    (lowered_index : outcome jsval) : outcome string :=
  match index with
  | LiteralField (LString key) =>
      if includes dateAccessors (toLowerCase key)
      then Ok (to_string object +:+ "." +:+ toLowerCase key)
      else Ok (mapDataviewPropertyToBaseProperty
                 (to_string object +:+ "." +:+ key))
  | _ =>
      let* i := lowered_index in
      Ok (to_string object +:+ "[" +:+ to_string i +:+ "]")
  end.

Definition operatorMap : list (string * string) :=
  [ ("=", "=="); ("!=", "!="); (">", ">"); (">=", ">="); ("<", "<");
    ("<=", "<="); ("+", "+"); ("-", "-"); ("*", "*"); ("/", "/");
    ("%", "%"); ("&", "&&"); ("|", "||") ].

(** [isDateExpression] *)
Definition isDateExpression (field : Field) : bool :=
  match field with
  | FunctionField (VariableField name) _ =>
      let funcName := toLowerCase name in
      (String.eqb funcName "date" || String.eqb funcName "now")%bool
  | LiteralField (LDateTime _) => true
  | _ => false
  end.

Definition compareOps : list string := ["="; "!="; ">"; ">="; "<"; "<="].

Definition filterFunctions : list string :=
  [ "contains"; "containsAny"; "containsAll"; "startswith"; "endswith";
    "empty"; "notEmpty"; "hasTag"; "hasLink"; "inFolder" ].

(** [isFilterExpression] *)
Definition isFilterExpression (field : Field) : bool :=
  match field with
  | BinaryOpField op _ _ => includes compareOps op
  | FunctionField (VariableField name) _ => includes filterFunctions (toLowerCase name)
  | NegatedField _ => true
  | _ => false
  end.

(** [isLogicalObject] *)
Definition isLogicalObject (value : jsval) : bool :=
  match value with
  | JObj key _ => (String.eqb key "and" || String.eqb key "or")%bool
  | _ => false
  end.

(** The test [isRightDuration] of [transformBinaryOp]: a call of [dur], or
    a literal whose value has a [toISO] method (durations and dates). *)
Definition isRightDuration (right : Field) : bool :=
  match right with
  | FunctionField (VariableField name) _ => String.eqb (toLowerCase name) "dur"
  | LiteralField (LDuration _) => true
  | LiteralField (LDateTime _) => true
  | _ => false
  end.

Definition isLeftDate (left : Field) : bool :=
  (isDateExpression left
   || match left with
      | FunctionField (VariableField name) _ => String.eqb (toLowerCase name) "date"
      | _ => false
      end)%bool.

Definition is_string_literal (field : Field) : bool :=
  match field with
  | LiteralField (LString _) => true
  | _ => false
  end.

(** [v === text] *)
Definition is_string (text : string) (v : jsval) : bool :=
  match v with
  | JStr s => String.eqb s text
  | _ => false
  end.

(** A method call on a value that only strings have. *)
Definition as_string (what : string) (v : jsval) : outcome string :=
  match v with
  | JStr s => Ok s
  | _ => Throw (TypeError (what +:+ " is not a function"))
  end.

(** The duration string of a date computation: the quotes of [right] are
    removed and, for a subtraction, a minus sign is put in front unless
    one is there. *)
Definition signed_duration (op : string) (right : string) : string :=
  let durationStr :=
    if (startsWith right (String dquote EmptyString) && endsWithChar right dquote)%bool
    then slice_1_m1 right else right in
  if String.eqb op "-"
  then if startsWith durationStr "-" then durationStr
       else "-" +:+ durationStr
  else durationStr.

(** The test of [transformBinaryOp] for a filter context. *)
Definition filter_context (fleft fright : Field) (left right : jsval) : bool :=
  (isFilterExpression fleft || isFilterExpression fright
   || isLogicalObject left || isLogicalObject right)%bool.

(** [transformBinaryOp], given the lowered operands. *)
Definition transformBinaryOp (op : string) (fleft fright : Field)
    (left right : jsval) : outcome jsval :=
  let operator :=
    match table_get operatorMap op with Some o => o | None => op end in
  let infix :=
    Ok (JStr (to_string left +:+ " " +:+ operator +:+ " " +:+ to_string right)) in
  if (String.eqb op "&" || String.eqb op "|")%bool then
    let logicalOp := if String.eqb op "&" then "and" else "or" in
    if filter_context fleft fright left right
    then Ok (flattenLogicalOperations logicalOp [left; right])
    else infix
  else
    let concat :=
      if (String.eqb op "+" && is_string_literal fright)%bool
      then Ok (JStr (to_string left +:+ " + " +:+ to_string right))
      else infix in
    if (String.eqb op "+" || String.eqb op "-")%bool then
      if (isLeftDate fleft && isRightDuration fright)%bool then
        let* durationStr := as_string "durationStr.startsWith" right in
        Ok (JStr (to_string left +:+ " + "
                  +:+ quoted (signed_duration op durationStr)))
      else if (isLeftDate fleft && isDateExpression fright)%bool then
        Ok (JStr (to_string left +:+ " - " +:+ to_string right))
      else concat
    else concat.

Definition functionMap : list (string * string) :=
  [ ("round", "round"); ("floor", "floor"); ("ceil", "ceil"); ("abs", "abs");
    ("min", "min"); ("max", "max"); ("sum", "sum"); ("avg", "average");
    ("length", "length"); ("contains", "contains");
    ("containsany", "containsAny"); ("containsall", "containsAll");
    ("startswith", "startsWith"); ("endswith", "endsWith");
    ("empty", "isEmpty"); ("notempty", "!isEmpty");
    ("dateformat", "format"); ("date", "date"); ("now", "now");
    ("dur", "duration"); ("year", "year"); ("month", "month");
    ("day", "day"); ("hour", "hour"); ("minute", "minute");
    ("second", "second"); ("millisecond", "millisecond");
    ("tofixed", "toFixed"); ("tostring", "toString"); ("trim", "trim");
    ("title", "title"); ("split", "split"); ("replace", "replace");
    ("slice", "slice"); ("reverse", "reverse"); ("join", "join");
    ("sort", "sort"); ("flat", "flat"); ("unique", "unique") ].

(** [isDateLikeExpression]: the shape [year - month - day] on number
    literals within the calendar ranges. *)
Definition isDateLikeExpression (field : Field) : bool :=
  match field with
  | BinaryOpField op (LiteralField (LNumber year))
      (BinaryOpField op' (LiteralField (LNumber month))
                         (LiteralField (LNumber day))) =>
      (String.eqb op "-" && String.eqb op' "-"
       && Z.leb 1900 year && Z.leb year 2100
       && Z.leb 1 month && Z.leb month 12
       && Z.leb 1 day && Z.leb day 31)%bool
  | _ => false
  end.

(** [extractDateString]; the source calls it on date-like expressions
    only, whose three parts are number literals. *)
Definition extractDateString (field : Field) : option string :=
  match field with
  | BinaryOpField op (LiteralField (LNumber year))
      (BinaryOpField op' (LiteralField (LNumber month))
                         (LiteralField (LNumber day))) =>
      if (String.eqb op "-" && String.eqb op' "-")%bool
      then Some (of_Z year +:+ "-" +:+ padStart2 (of_Z month)
                 +:+ "-" +:+ padStart2 (of_Z day))
      else None
  | _ => None
  end.

(** The three relative days [date(...)] knows. *)
Definition relative_date (keyword : string) : option string :=
  if String.eqb keyword "today" then Some "now()"
  else if String.eqb keyword "tomorrow" then Some ("now() + " +:+ quoted "1 day")
  else if String.eqb keyword "yesterday" then Some ("now() + " +:+ quoted "-1 day")
  else None.

(** The [duration] case of [transformFunction] once the argument has
    matched: [num] and [unit] are the two groups of the match. *)
Definition duration_of_match (num unit : string) : string :=
  let numVal := digits_value num in
  let unitName := toLowerCase unit in
  if startsWith unitName "week" then
    duration_text (Z.of_N (numVal * 7)) "day"
  else
    let unitName :=
      if (negb (N.eqb numVal 1) && negb (endsWithChar unitName "s"))%bool
      then unitName +:+ "s"
      else if (N.eqb numVal 1 && endsWithChar unitName "s")%bool
      then drop_last unitName
      else unitName in
    quoted (num +:+ " " +:+ unitName).

(** [transformFunction]; [lowered] is the lowering of the arguments, which
    the source computes where this definition binds it. *)
Definition transformFunction (func : Field) (arguments : list Field)
    (lowered : outcome (list jsval)) : outcome string :=
  let funcName :=
    match func with
    | VariableField name => name
    | LiteralField (LString s) => s
    | _ => EmptyString
    end in
  let arity := List.length arguments in
  if (String.eqb (toLowerCase funcName) "link"
      && (Nat.eqb arity 1 || Nat.eqb arity 2))%bool
  then
    let* args := lowered in
    Ok ("link(" +:+ join ", " (map to_string args) +:+ ")")
  else
    let basesFunc :=
      match table_get functionMap (toLowerCase funcName) with
      | Some f => f
      | None => funcName
      end in
    let early :=
      match arguments with
      | [argument] =>
          if String.eqb basesFunc "date" then
            let keyword :=
              match argument with
              | VariableField name => relative_date (toLowerCase name)
              | _ => None
              end in
            match keyword with
            | Some text => Some text
            | None =>
                if isDateLikeExpression argument then
                  match extractDateString argument with
                  | Some dateStr =>
                      if is_empty dateStr then None
                      else Some ("date(" +:+ quoted dateStr +:+ ")")
                  | None => None
                  end
                else None
            end
          else None
      | _ => None
      end in
    match early with
    | Some text => Ok text
    | None =>
        let* args := lowered in
        let generic :=
          Ok (basesFunc +:+ "(" +:+ join_values ", " args +:+ ")") in
        if String.eqb basesFunc "contains" then
          match args with
          | [a0; a1] =>
              if is_string "tags" a0 then
                let* tag := as_string "args[1].replace" a1 in
                Ok ("file.hasTag(" +:+ quoted (strip_quotes tag) +:+ ")")
              else generic
          | _ => generic
          end
        else if String.eqb basesFunc "date" then
          match args with
          | [a0] =>
              let* text := as_string "args[0].replace" a0 in
              match relative_date (toLowerCase (strip_quotes text)) with
              | Some r => Ok r
              | None => Ok ("date(" +:+ to_string a0 +:+ ")")
              end
          | _ => generic
          end
        else if String.eqb basesFunc "duration" then
          match args with
          | [a0] =>
              let* text := as_string "args[0].match" a0 in
              match match_duration text with
              | Some (num, unit) => Ok (duration_of_match num unit)
              | None => generic
              end
          | _ => generic
          end
        else if String.eqb basesFunc "!isEmpty" then
          Ok ("!(" +:+ join_values ", " args +:+ ".isEmpty())")
        else generic
    end.

(** [transformFieldExpression] *)
Fixpoint transformFieldExpression (field : Field) : outcome jsval :=
  let lower_all :=
    fix lower_all (fs : list Field) : outcome (list jsval) :=
      match fs with
      | [] => Ok []
      | f :: rest =>
          let* v := transformFieldExpression f in
          let* vs := lower_all rest in
          Ok (v :: vs)
      end in
  match field with
  | VariableField name => Ok (JStr (mapDataviewPropertyToBaseProperty name))
  | LiteralField value => Ok (JStr (transformLiteral value))
  | IndexField object index =>
      let* o := transformFieldExpression object in
      let* text := transformIndexField o index (transformFieldExpression index) in
      Ok (JStr text)
  | BinaryOpField op fleft fright =>
      let* left := transformFieldExpression fleft in
      let* right := transformFieldExpression fright in
      transformBinaryOp op fleft fright left right
  | FunctionField func arguments =>
      let* text := transformFunction func arguments (lower_all arguments) in
      Ok (JStr text)
  | NegatedField child =>
      let* negatedChild := transformFieldExpression child in
      Ok (JObj "not" [negatedChild])
  | ListField values =>
      let* listItems := lower_all values in
      Ok (JStr ("[" +:+ join_values ", " listItems +:+ "]"))
  | OtherField => Ok (JStr EmptyString)
  end.

(** [field.arguments.map(arg => this.transformFieldExpression(arg))] *)
Fixpoint transformFields (fs : list Field) : outcome (list jsval) :=
  match fs with
  | [] => Ok []
  | f :: rest =>
      let* v := transformFieldExpression f in
      let* vs := transformFields rest in
      Ok (v :: vs)
  end.

(** [transformSource] *)
Fixpoint transformSource (source : Source) : jsval :=
  match source with
  | Folder folder =>
      if is_empty folder then JNull
      else JStr ("file.inFolder(" +:+ quoted folder +:+ ")")
  | Tag tag =>
      let tag := if startsWith tag "#" then drop_first tag else tag in
      JStr ("file.hasTag(" +:+ quoted tag +:+ ")")
  | Link file => JStr ("file.hasLink(" +:+ quoted file +:+ ")")
  | Negate child =>
      let inner := transformSource child in
      if negb (truthy inner) then JNull else JObj "not" [inner]
  | SourceBinaryOp op sleft sright =>
      let left := transformSource sleft in
      let right := transformSource sright in
      if (negb (truthy left) && negb (truthy right))%bool then JNull
      else if negb (truthy left) then right
      else if negb (truthy right) then left
      else
        let operator := if String.eqb op "&" then "and" else "or" in
        flattenLogicalOperations operator [left; right]
  | Empty => JNull
  | OtherSource => JNull
  end.

(** [isFormulaField] *)
Fixpoint isFormulaField (field : Field) : bool :=
  match field with
  | VariableField _ => false
  | IndexField object _ => isFormulaField object
  | _ => true
  end.

(** ** The configuration built by [transform] *)

Record SortEntry := mkSortEntry { column : jsval; direction : string }.

Record View := mkView {
  view_type : string;
  view_name : string;
  view_limit : option Z;
  view_filters : option jsval;
  view_order : option (list jsval);
  view_group_by : option jsval;
  view_sort : option (list SortEntry)
}.

Record Config := mkConfig {
  filters : option jsval;
  formulas : option (gmap string jsval);
  display : option (gmap string string);
  views : list View
}.

Definition update_view (f : View -> View) (result : Config) : Config :=
  {| filters := filters result;
     formulas := formulas result;
     display := display result;
     views := match views result with
              | v :: rest => f v :: rest
              | [] => []
              end |}.

Definition set_type (t : string) (v : View) : View :=
  {| view_type := t; view_name := view_name v; view_limit := view_limit v;
     view_filters := view_filters v; view_order := view_order v;
     view_group_by := view_group_by v; view_sort := view_sort v |}.

Definition set_limit (n : Z) (v : View) : View :=
  {| view_type := view_type v; view_name := view_name v; view_limit := Some n;
     view_filters := view_filters v; view_order := view_order v;
     view_group_by := view_group_by v; view_sort := view_sort v |}.

Definition set_view_filters (f : jsval) (v : View) : View :=
  {| view_type := view_type v; view_name := view_name v;
     view_limit := view_limit v; view_filters := Some f;
     view_order := view_order v; view_group_by := view_group_by v;
     view_sort := view_sort v |}.

Definition set_order (o : list jsval) (v : View) : View :=
  {| view_type := view_type v; view_name := view_name v;
     view_limit := view_limit v; view_filters := view_filters v;
     view_order := Some o; view_group_by := view_group_by v;
     view_sort := view_sort v |}.

Definition set_group_by (g : jsval) (v : View) : View :=
  {| view_type := view_type v; view_name := view_name v;
     view_limit := view_limit v; view_filters := view_filters v;
     view_order := view_order v; view_group_by := Some g;
     view_sort := view_sort v |}.

Definition set_sort (s : list SortEntry) (v : View) : View :=
  {| view_type := view_type v; view_name := view_name v;
     view_limit := view_limit v; view_filters := view_filters v;
     view_order := view_order v; view_group_by := view_group_by v;
     view_sort := Some s |}.

Definition set_filters (f : jsval) (result : Config) : Config :=
  {| filters := Some f; formulas := formulas result;
     display := display result; views := views result |}.

Definition set_formulas (f : gmap string jsval) (result : Config) : Config :=
  {| filters := filters result; formulas := Some f;
     display := display result; views := views result |}.

Definition set_display (d : gmap string string) (result : Config) : Config :=
  {| filters := filters result; formulas := formulas result;
     display := Some d; views := views result |}.

(** The object [transform] starts from. *)
Definition initial_result : Config :=
  {| filters := None; formulas := None; display := None;
     views := [ {| view_type := "table"; view_name := "Default view";
                   view_limit := None; view_filters := None;
                   view_order := None; view_group_by := None;
                   view_sort := None |} ] |}.

(** What [transformNamedField] returns. *)
Record TransformedField := mkTransformed {
  fieldName : jsval;
  displayName : string;
  formula : option jsval;
  formulaKey : option string
}.

(** The key a formula column is filed under. *)
Definition formula_key (displayName : string) : string :=
  spaces_to_underscore (toLowerCase displayName).

(** [transformNamedField]; the source reads neither [index] nor the
    counter [formulaCounter] of the class. *)
Definition transformNamedField (namedField : NamedField) (index : nat)
    : outcome TransformedField :=
  let displayName := nf_name namedField in
  if isFormulaField (nf_field namedField) then
    let formulaKey := formula_key displayName in
    let* formula := transformFieldExpression (nf_field namedField) in
    Ok {| fieldName := JStr ("formula." +:+ formulaKey);
          displayName := displayName;
          formula := Some formula;
          formulaKey := Some formulaKey |}
  else
    let* fieldName := transformFieldExpression (nf_field namedField) in
    Ok {| fieldName := fieldName; displayName := displayName;
          formula := None; formulaKey := None |}.

(** The three objects the [forEach] of [transformHeader] fills. *)
Record Columns := mkColumns {
  col_display : gmap string string;
  col_order : list jsval;
  col_formulas : gmap string jsval
}.

Definition add_column (t : TransformedField) (cols : Columns) : Columns :=
  {| col_display := <[to_string (fieldName t) := displayName t]> (col_display cols);
     col_order := col_order cols ++ [fieldName t];
     col_formulas :=
       match formula t, formulaKey t with
       | Some f, Some k =>
           if (truthy f && negb (is_empty k))%bool
           then <[k := f]> (col_formulas cols)
           else col_formulas cols
       | _, _ => col_formulas cols
       end |}.

(** [header.fields.forEach(...)], from position [index] on. *)
Fixpoint transformColumns (fields : list NamedField) (index : nat)
    (cols : Columns) : outcome Columns :=
  match fields with
  | [] => Ok cols
  | namedField :: rest =>
      let* transformed := transformNamedField namedField index in
      transformColumns rest (S index) (add_column transformed cols)
  end.

Definition initial_columns (showId : bool) : Columns :=
  if showId
  then {| col_display := {[ "file.name" := "Name" ]};
          col_order := [JStr "file.name"];
          col_formulas := ∅ |}
  else {| col_display := ∅; col_order := []; col_formulas := ∅ |}.

Definition unsupported (keyword : string) : error :=
  Error (keyword +:+ " queries are not supported. Please use TABLE queries instead.").

(** [transformHeader] *)
Definition transformHeader (header : QueryHeader) (result : Config)
    : outcome Config :=
  match header with
  | TableQuery fields showId =>
      let result := update_view (set_type "table") result in
      match fields with
      | _ :: _ =>
          let* cols := transformColumns fields 0 (initial_columns showId) in
          let result := set_display (col_display cols) result in
          let result := update_view (set_order (col_order cols)) result in
          if Nat.ltb 0 (size (col_formulas cols))
          then Ok (set_formulas (col_formulas cols) result)
          else Ok result
      | [] =>
          if showId
          then Ok (update_view (set_order [JStr "file.name"])
                     (set_display {[ "file.name" := "Name" ]} result))
          else Ok result
      end
  | ListQuery _ _ => Throw (unsupported "LIST")
  | TaskQuery => Throw (unsupported "TASK")
  | CalendarQuery _ => Throw (unsupported "CALENDAR")
  end.

(** [transformSortClause] *)
Fixpoint sort_entries (fields : list QuerySortBy) : outcome (list SortEntry) :=
  match fields with
  | [] => Ok []
  | sortField :: rest =>
      let* c := transformFieldExpression (sb_field sortField) in
      let entry :=
        {| column := c;
           direction := match sb_direction sortField with
                        | ascending => "asc"
                        | descending => "desc"
                        end |} in
      let* entries := sort_entries rest in
      Ok (entry :: entries)
  end.

Definition transformSortClause (fields : list QuerySortBy) (result : Config)
    : outcome Config :=
  let* sortFields := sort_entries fields in
  Ok (update_view (set_sort sortFields) result).

(** [transformLimitClause] *)
Definition transformLimitClause (amount : Field) (result : Config)
    : outcome Config :=
  match amount with
  | LiteralField (LNumber n) => Ok (update_view (set_limit n) result)
  | _ =>
      let* limitExpr := transformFieldExpression amount in
      match parseInt (to_string limitExpr) with
      | Some parsed => Ok (update_view (set_limit parsed) result)
      | None => Ok result
      end
  end.

(** [transformGroupClause] *)
Definition transformGroupClause (field : NamedField) (result : Config)
    : outcome Config :=
  let* groupField := transformFieldExpression (nf_field field) in
  Ok (update_view (set_group_by groupField) result).

(** [combineFilters] *)
Definition combineFilters (sourceFilters whereFilters : jsval) : jsval :=
  if (negb (truthy sourceFilters) && negb (truthy whereFilters))%bool then JNull
  else if negb (truthy sourceFilters) then whereFilters
  else if negb (truthy whereFilters) then sourceFilters
  else flattenLogicalOperations "and" [sourceFilters; whereFilters].

(** One turn of the loop over [query.operations]: the state is the value
    of [whereFilters] and the configuration. *)
Definition apply_operation (operation : QueryOperation)
    (state : jsval * Config) : outcome (jsval * Config) :=
  let '(whereFilters, result) := state in
  match operation with
  | WhereStep clause =>
      let* w := transformFieldExpression clause in Ok (w, result)
  | SortByStep fields =>
      let* r := transformSortClause fields result in Ok (whereFilters, r)
  | LimitStep amount =>
      let* r := transformLimitClause amount result in Ok (whereFilters, r)
  | GroupStep field =>
      let* r := transformGroupClause field result in Ok (whereFilters, r)
  | FlattenStep _ => Ok state
  | ExtractStep _ => Ok state
  end.

Fixpoint apply_operations (operations : list QueryOperation)
    (state : jsval * Config) : outcome (jsval * Config) :=
  match operations with
  | [] => Ok state
  | operation :: rest =>
      let* state' := apply_operation operation state in
      apply_operations rest state'
  end.

(** [transform] *)
Definition transform (query : Query) (placeFiltersInView : bool)
    : outcome Config :=
  let* result := transformHeader (header query) initial_result in
  let sourceFilters := transformSource (source query) in
  let* state := apply_operations (operations query) (JNull, result) in
  let '(whereFilters, result) := state in
  let combinedFilters := combineFilters sourceFilters whereFilters in
  if truthy combinedFilters then
    if placeFiltersInView
    then Ok (update_view (set_view_filters combinedFilters) result)
    else Ok (set_filters combinedFilters result)
  else Ok result.

(** ** The result type of the parser

    The classes [Success] and [Failure] and the namespace [Result] of
    src/dataview-parser/query-types.ts.  A method [r.m(x)] is the function
    [m x r]. *)

Module ResultType.

Inductive Result (T E : Type) :=
| Success (value : T)
| Failure (error : E).
Arguments Success {T E} value.
Arguments Failure {T E} error.

Definition successful {T E : Type} (r : Result T E) : bool :=
  match r with
  | Success _ => true
  | Failure _ => false
  end.

Definition map {T U E : Type} (f : T -> U) (r : Result T E) : Result U E :=
  match r with
  | Success value => Success (f value)
  | Failure error => Failure error
  end.

Definition flatMap {T U E : Type} (f : T -> Result U E) (r : Result T E)
    : Result U E :=
  match r with
  | Success value => f value
  | Failure error => Failure error
  end.

Definition mapErr {T E U : Type} (f : E -> U) (r : Result T E) : Result T U :=
  match r with
  | Success value => Success value
  | Failure error => Failure (f error)
  end.

Definition bimap {T E T2 E2 : Type} (succ : T -> T2) (fail : E -> E2)
    (r : Result T E) : Result T2 E2 :=
  match r with
  | Success value => mapErr fail (map succ (Success value))
  | Failure error => mapErr fail (Failure error)
  end.

Definition orElse {T E : Type} (value : T) (r : Result T E) : T :=
  match r with
  | Success own => own
  | Failure _ => value
  end.

(** [orElseThrow] at the error type [string], where the concatenation of
    the empty string with the error is the error. *)
Definition orElseThrow {T : Type} (message : option (string -> string))
    (r : Result T string) : outcome T :=
  match r with
  | Success value => Ok value
  | Failure error =>
      match message with
      | Some message => Throw (Error (message error))
      | None => Throw (Error error)
      end
  end.

Definition success {T E : Type} (value : T) : Result T E := Success value.

Definition failure {T E : Type} (error : E) : Result T E := Failure error.

Definition flatMap2 {T1 T2 O E : Type} (first : Result T1 E)
    (second : Result T2 E) (f : T1 -> T2 -> Result O E) : Result O E :=
  match first with
  | Success a =>
      match second with
      | Success b => f a b
      | Failure error => failure error
      end
  | Failure error => failure error
  end.

Definition map2 {T1 T2 O E : Type} (first : Result T1 E)
    (second : Result T2 E) (f : T1 -> T2 -> O) : Result O E :=
  flatMap2 first second (fun a b => success (f a b)).

End ResultType.

(** ** The entry point

    [toYaml] of the transformer and [parseDataviewTable] of
    src/dataview-parser/index.ts.  The parser and the YAML printer are
    outside this development: the entry point is given for any parser
    returning a [Result] and any printer, either of which may throw. *)

Section EntryPoint.

Import ResultType.

Variable parseQuery : string -> outcome (Result Query string).
Variable dump : Config -> outcome string.

Definition toYaml (query : Query) (placeFiltersInView : bool) : outcome string :=
  let* basesObject := transform query placeFiltersInView in
  dump basesObject.

Definition error_message (e : error) : string :=
  match e with
  | Error message => message
  | TypeError message => message
  end.

Definition parseDataviewTable (dataviewQuery : string)
    (placeFiltersInView : bool) : string :=
  let attempt :=
    let* parseResult := parseQuery dataviewQuery in
    match parseResult with
    | Failure error =>
        Throw (Error ("Failed to parse Dataview query: " +:+ error))
    | Success value => toYaml value placeFiltersInView
    end in
  match attempt with
  | Ok text => text
  | Throw error => "# Error parsing Dataview query: " +:+ error_message error
  end.

End EntryPoint.

(** ** The splitter of the text converter

    [parseDataviewFields] of the converter on text in src/lib splits the text
    of a [TABLE] clause at its commas, those inside quotes or parentheses
    apart.  The loop over the characters is [split_loop], with the
    previous character as the source reads it at [fieldsStr[i - 1]]. *)

Module Legacy.

Record SplitState := mkSplitState {
  split_fields : list string;
  currentField : string;
  parenDepth : Z;
  inQuotes : bool;
  quoteChar : string
}.

Definition split_start : SplitState :=
  {| split_fields := []; currentField := EmptyString; parenDepth := 0;
     inQuotes := false; quoteChar := EmptyString |}.

Definition char_text (c : ascii) : string := String c EmptyString.

Definition is_quote (c : ascii) : bool :=
  (Ascii.eqb c "034"%char || Ascii.eqb c "'"%char)%bool.

(** [i === 0 || fieldsStr[i - 1] !== backslash] *)
Definition unescaped (previous : option ascii) : bool :=
  match previous with
  | None => true
  | Some p => negb (Ascii.eqb p "092"%char)
  end.

Definition split_step (previous : option ascii) (char : ascii)
    (st : SplitState) : SplitState :=
  let appended := currentField st +:+ char_text char in
  if (is_quote char && unescaped previous)%bool then
    if negb (inQuotes st) then
      {| split_fields := split_fields st; currentField := appended;
         parenDepth := parenDepth st; inQuotes := true;
         quoteChar := char_text char |}
    else if String.eqb (char_text char) (quoteChar st) then
      {| split_fields := split_fields st; currentField := appended;
         parenDepth := parenDepth st; inQuotes := false;
         quoteChar := quoteChar st |}
    else
      {| split_fields := split_fields st; currentField := appended;
         parenDepth := parenDepth st; inQuotes := inQuotes st;
         quoteChar := quoteChar st |}
  else if (Ascii.eqb char "("%char && negb (inQuotes st))%bool then
    {| split_fields := split_fields st; currentField := appended;
       parenDepth := parenDepth st + 1; inQuotes := inQuotes st;
       quoteChar := quoteChar st |}
  else if (Ascii.eqb char ")"%char && negb (inQuotes st))%bool then
    {| split_fields := split_fields st; currentField := appended;
       parenDepth := parenDepth st - 1; inQuotes := inQuotes st;
       quoteChar := quoteChar st |}
  else if (Ascii.eqb char ","%char && Z.eqb (parenDepth st) 0
           && negb (inQuotes st))%bool then
    {| split_fields := split_fields st ++ [trim (currentField st)];
       currentField := EmptyString;
       parenDepth := parenDepth st; inQuotes := inQuotes st;
       quoteChar := quoteChar st |}
  else
    {| split_fields := split_fields st; currentField := appended;
       parenDepth := parenDepth st; inQuotes := inQuotes st;
       quoteChar := quoteChar st |}.

Fixpoint split_loop (previous : option ascii) (fieldsStr : string)
    (st : SplitState) : SplitState :=
  match fieldsStr with
  | EmptyString => st
  | String char rest => split_loop (Some char) rest (split_step previous char st)
  end.

Definition split_finish (st : SplitState) : list string :=
  if is_empty (trim (currentField st)) then split_fields st
  else split_fields st ++ [trim (currentField st)].

Definition parseDataviewFields (fieldsStr : string) : list string :=
  split_finish (split_loop None fieldsStr split_start).

End Legacy.

(** * Notions used in the statements *)

(** [same_group k v]: [v] is an object with the key [k]. *)
Definition same_group (k : string) (v : jsval) : bool :=
  match v with
  | JObj key _ => String.eqb key k
  | _ => false
  end.

Definition is_logical_key (k : string) : bool :=
  (String.eqb k "and" || String.eqb k "or")%bool.

(** The flattening invariant of a lowered filter: below every [and] and
    [or] group there are at least two children, none of which is a group
    of the same operator. *)
Fixpoint well_grouped (v : jsval) : bool :=
  match v with
  | JObj k items =>
      (forallb well_grouped items
       && (negb (is_logical_key k)
           || (forallb (fun c => negb (same_group k c)) items
               && Nat.leb 2 (List.length items))))%bool
  | _ => true
  end.

#[local] Arguments Nat.leb : simpl never.

Definition not_null (v : jsval) : bool :=
  match v with JNull => false | _ => true end.

(** [dur(argument)] *)
Definition dur_call (argument : Field) : Field :=
  FunctionField (VariableField "dur") [argument].

Fixpoint all_chars (p : ascii -> bool) (s : string) : bool :=
  match s with
  | EmptyString => true
  | String c r => (p c && all_chars p r)%bool
  end.

(** The keyword a query header is written with. *)
Definition header_keyword (h : QueryHeader) : string :=
  match h with
  | TableQuery _ _ => "TABLE"
  | ListQuery _ _ => "LIST"
  | TaskQuery => "TASK"
  | CalendarQuery _ => "CALENDAR"
  end.

Definition is_table (h : QueryHeader) : bool :=
  match h with
  | TableQuery _ _ => true
  | _ => false
  end.

Definition is_number_literal (field : Field) : bool :=
  match field with
  | LiteralField (LNumber _) => true
  | _ => false
  end.

(** The character [hyphens_to_underscores] puts for [c]. *)
Definition hyphen_to_underscore (c : ascii) : ascii :=
  if Ascii.eqb c "-" then "_"%char else c.

(** A column that is a bare variable, and the name it is emitted under. *)
Definition bare_variable (namedField : NamedField) : bool :=
  match nf_field namedField with
  | VariableField _ => true
  | _ => false
  end.

Definition column_name (namedField : NamedField) : string :=
  match nf_field namedField with
  | VariableField name => mapDataviewPropertyToBaseProperty name
  | _ => EmptyString
  end.

(** The [display] object after the columns [fields] have been entered. *)
Definition enter_columns (fields : list NamedField) (d : gmap string string)
    : gmap string string :=
  foldl (fun m nf => <[column_name nf := nf_name nf]> m) d fields.

(** The identity column, present when [showId] is true. *)
Definition identity_column (showId : bool) : list string :=
  if showId then ["file.name"] else [].

(** The number of entries of [display]; an absent map has none. *)
Definition display_size (result : Config) : nat :=
  match display result with
  | Some d => size d
  | None => 0%nat
  end.

(** The [order] of the view; an absent list has no entry. *)
Definition view_order_of (result : Config) : list jsval :=
  match views result with
  | v :: _ => match view_order v with Some o => o | None => [] end
  | [] => []
  end.

(** The keys of the formula columns of a header, in clause order. *)
Fixpoint formula_keys (fields : list NamedField) : list string :=
  match fields with
  | [] => []
  | nf :: rest =>
      if isFormulaField (nf_field nf)
      then formula_key (nf_name nf) :: formula_keys rest
      else formula_keys rest
  end.

(** ** Sample expressions *)

Module Sample.

(** [name = n] *)
Definition equals (name : string) (n : Z) : Field :=
  BinaryOpField "=" (VariableField name) (LiteralField (LNumber n)).

Definition A : Field := equals "a" 1.
Definition B : Field := equals "b" 2.
Definition C : Field := equals "c" 3.

Definition duration_of_days (n : Z) : Duration :=
  {| years := 0; months := 0; weeks := 0; days := n;
     hours := 0; minutes := 0; seconds := 0 |}.

Definition duration_of_weeks (n : Z) : Duration :=
  {| years := 0; months := 0; weeks := n; days := 0;
     hours := 0; minutes := 0; seconds := 0 |}.

Definition new_year : Field := LiteralField (LDateTime "2024-01-01").

Definition three_days_back : Field :=
  LiteralField (LDuration (duration_of_days (-3))).

Definition list_query : Query :=
  {| header := ListQuery None true;
     source := Folder "notes";
     operations := [WhereStep A] |}.

(** [due.month], [file.cday] and [a["b "]] *)
Definition due_month : Field :=
  IndexField (VariableField "due") (LiteralField (LString "month")).

Definition file_cday : Field :=
  IndexField (VariableField "file") (LiteralField (LString "cday")).

Definition a_b_padded : Field :=
  IndexField (VariableField "a") (LiteralField (LString "b ")).

(** [TABLE title FROM "notes" LIMIT count] and the same query without
    its [LIMIT] *)
Definition limit_by_name : Query :=
  {| header := TableQuery [mkNamedField "title" (VariableField "title")] true;
     source := Folder "notes";
     operations := [LimitStep (VariableField "count")] |}.

Definition no_limit : Query :=
  {| header := TableQuery [mkNamedField "title" (VariableField "title")] true;
     source := Folder "notes";
     operations := [] |}.

(** [TABLE a, a] *)
Definition same_column_twice : Query :=
  {| header := TableQuery [mkNamedField "a" (VariableField "a");
                           mkNamedField "a" (VariableField "a")] true;
     source := Empty;
     operations := [] |}.

(** [TABLE title, pages-read FROM "books" SORT title] *)
Definition two_columns (showId : bool) : Query :=
  {| header := TableQuery [mkNamedField "title" (VariableField "title");
                           mkNamedField "pages-read" (VariableField "pages-read")]
                          showId;
     source := Folder "books";
     operations := [SortByStep [mkSortBy (VariableField "title") ascending]] |}.

(** [TABLE a + b AS "Total", a * b AS "total"] *)
Definition sum_ab : Field := BinaryOpField "+" (VariableField "a") (VariableField "b").
Definition product_ab : Field := BinaryOpField "*" (VariableField "a") (VariableField "b").

Definition colliding_aliases : Query :=
  {| header := TableQuery [mkNamedField "Total" sum_ab;
                           mkNamedField "total" product_ab] false;
     source := Empty;
     operations := [] |}.

(** [TABLE a + b AS "Sum Of Both", a * b AS "Product"] *)
Definition distinct_aliases : list NamedField :=
  [mkNamedField "Sum Of  Both" sum_ab; mkNamedField "Product" product_ab].

End Sample.


(** ** Notions used in the further properties *)

(** An expression with no function call in it. *)
Fixpoint no_calls (field : Field) : bool :=
  match field with
  | VariableField _ => true
  | LiteralField _ => true
  | IndexField object index => (no_calls object && no_calls index)%bool
  | BinaryOpField _ fleft fright => (no_calls fleft && no_calls fright)%bool
  | FunctionField _ _ => false
  | NegatedField child => no_calls child
  | ListField values => forallb no_calls values
  | OtherField => true
  end.

Definition is_type_error (e : error) : bool :=
  match e with
  | TypeError _ => true
  | Error _ => false
  end.

(** The expressions of a header and of a clause. *)
Definition header_fields (h : QueryHeader) : list Field :=
  match h with
  | TableQuery fields _ => map nf_field fields
  | _ => []
  end.

Definition operation_fields (operation : QueryOperation) : list Field :=
  match operation with
  | WhereStep clause => [clause]
  | SortByStep fields => map sb_field fields
  | LimitStep amount => [amount]
  | GroupStep field => [nf_field field]
  | FlattenStep _ => []
  | ExtractStep _ => []
  end.

(** The expressions [transform] lowers for a query. *)
Definition query_fields (query : Query) : list Field :=
  header_fields (header query) ++ flat_map operation_fields (operations query).

(** [lowers f]: the lowering of [f] returns a value. *)
Definition lowers (field : Field) : Prop :=
  exists v, transformFieldExpression field = Ok v.

(** The parts of a configuration no clause writes: the top-level filters
    and, of every view, the type, the name and the filters. *)
Definition frame (result : Config)
    : option jsval * list (string * string * option jsval) :=
  (filters result,
   map (fun v => (view_type v, view_name v, view_filters v)) (views result)).

(** The configuration with the filters of its view moved to the top
    level. *)
Definition clear_view_filters (v : View) : View :=
  {| view_type := view_type v; view_name := view_name v;
     view_limit := view_limit v; view_filters := None;
     view_order := view_order v; view_group_by := view_group_by v;
     view_sort := view_sort v |}.

Definition filters_to_top (result : Config) : Config :=
  {| filters := match views result with
                | v :: _ => view_filters v
                | [] => None
                end;
     formulas := formulas result;
     display := display result;
     views := match views result with
              | v :: rest => clear_view_filters v :: rest
              | [] => []
              end |}.

(** The last clause of each kind. *)
Fixpoint last_where (operations : list QueryOperation) : option Field :=
  match operations with
  | [] => None
  | operation :: rest =>
      match last_where rest, operation with
      | Some clause, _ => Some clause
      | None, WhereStep clause => Some clause
      | None, _ => None
      end
  end.

Fixpoint last_sort (operations : list QueryOperation) : option (list QuerySortBy) :=
  match operations with
  | [] => None
  | operation :: rest =>
      match last_sort rest, operation with
      | Some fields, _ => Some fields
      | None, SortByStep fields => Some fields
      | None, _ => None
      end
  end.

Fixpoint last_group (operations : list QueryOperation) : option NamedField :=
  match operations with
  | [] => None
  | operation :: rest =>
      match last_group rest, operation with
      | Some field, _ => Some field
      | None, GroupStep field => Some field
      | None, _ => None
      end
  end.

Fixpoint last_limit (operations : list QueryOperation) : option Field :=
  match operations with
  | [] => None
  | operation :: rest =>
      match last_limit rest, operation with
      | Some amount, _ => Some amount
      | None, LimitStep amount => Some amount
      | None, _ => None
      end
  end.

(** The slots of the first view the clauses write. *)
Definition first_view (result : Config) : option View :=
  match views result with
  | v :: _ => Some v
  | [] => None
  end.

Definition sort_slot (result : Config) : option (list SortEntry) :=
  match first_view result with Some v => view_sort v | None => None end.

Definition group_slot (result : Config) : option jsval :=
  match first_view result with Some v => view_group_by v | None => None end.

Definition limit_slot (result : Config) : option Z :=
  match first_view result with Some v => view_limit v | None => None end.

(** The direction of a sort entry, as the configuration spells it. *)
Definition direction_text (d : Direction) : string :=
  match d with
  | ascending => "asc"
  | descending => "desc"
  end.

(** The days [date(...)] knows by name, with the expressions they lower
    to. *)
Definition relative_days : list (string * string) :=
  [ ("today", "now()");
    ("tomorrow", "now() + " +:+ quoted "1 day");
    ("yesterday", "now() + " +:+ quoted "-1 day") ].

(** [year - month - day], as the parser gives the argument of
    [date(2024-01-05)]. *)
Definition date_shorthand (year month day : Z) : Field :=
  BinaryOpField "-" (LiteralField (LNumber year))
    (BinaryOpField "-" (LiteralField (LNumber month))
                       (LiteralField (LNumber day))).

(** The keys every object literal inherits.  The tables of the source are
    object literals read with [table[key]]; the embedding reads their own
    keys, so it is the code at the names that are none of these. *)
Definition inherited_keys : list string :=
  [ "constructor"; "hasOwnProperty"; "isPrototypeOf"; "propertyIsEnumerable";
    "toLocaleString"; "toString"; "valueOf"; "__proto__";
    "__defineGetter__"; "__defineSetter__";
    "__lookupGetter__"; "__lookupSetter__" ].

Definition own_key (k : string) : bool := negb (includes inherited_keys k).

(** The variable a chain of property accesses starts from. *)
Fixpoint chain_root (field : Field) : string :=
  match field with
  | VariableField name => name
  | IndexField object _ => chain_root object
  | _ => EmptyString
  end.

(** A column whose name in the order is no inherited key: [display] is an
    object literal written with [display[name] = label], which stores
    nothing at the key [__proto__]. *)
Definition own_column (nf : NamedField) : bool :=
  own_key (hyphens_to_underscores (trim (chain_root (nf_field nf)))).



(** A source with a predicate in it: a folder with a path, a tag or a
    link, under any negation or combination. *)
Fixpoint has_predicate (s : Source) : bool :=
  match s with
  | Folder folder => negb (is_empty folder)
  | Tag _ => true
  | Link _ => true
  | Negate child => has_predicate child
  | SourceBinaryOp _ sleft sright => (has_predicate sleft || has_predicate sright)%bool
  | Empty => false
  | OtherSource => false
  end.

(** A text that is closed for the splitter: scanned from the start, it
    ends outside quotes and parentheses and has no comma that splits. *)
Definition closed_text (text : string) : bool :=
  let st := Legacy.split_loop None text Legacy.split_start in
  (negb (Legacy.inQuotes st) && Z.eqb (Legacy.parenDepth st) 0
   && Nat.eqb (List.length (Legacy.split_fields st)) 0)%bool.

(** Two states of the splitter that go on alike: the first has the
    fields of the second after [prefix], and they agree on all that the
    loop reads, the quote character being read inside quotes only. *)
Definition same_scan (prefix : list string) (st1 st2 : Legacy.SplitState) : Prop :=
  Legacy.split_fields st1 = prefix ++ Legacy.split_fields st2
  /\ Legacy.currentField st1 = Legacy.currentField st2
  /\ Legacy.parenDepth st1 = Legacy.parenDepth st2
  /\ Legacy.inQuotes st1 = Legacy.inQuotes st2
  /\ (Legacy.inQuotes st2 = true -> Legacy.quoteChar st1 = Legacy.quoteChar st2).

(** ** The inputs on which the embedding is the code

    The embedding reads strings on the ASCII range, prints integers in
    decimal and reads the tables by their own keys.  It is the code on
    the expressions that are plain: their names and texts are ASCII, their
    numbers are integers a JavaScript number holds exactly, and the names
    the lowering looks up in a table are no inherited keys. *)

Definition ascii_text (s : string) : bool :=
  all_chars (fun c => N.ltb (code c) 128) s.

(** [Number.isSafeInteger] *)
Definition safe_integer (n : Z) : bool := Z.leb (Z.abs n) 9007199254740991.

Definition plain_duration (d : Duration) : bool :=
  (safe_integer (years d) && safe_integer (months d) && safe_integer (weeks d)
   && safe_integer (days d) && safe_integer (hours d)
   && safe_integer (minutes d) && safe_integer (seconds d))%bool.

Definition plain_literal (value : LiteralValue) : bool :=
  match value with
  | LString s => ascii_text s
  | LNumber n => safe_integer n
  | LDateTime isoDate => ascii_text isoDate
  | LDuration d => plain_duration d
  | LOther text => ascii_text text
  | LBoolean _ => true
  | LNull => true
  end.

(** The name of a called function is looked up in lower case. *)
Definition plain_function (func : Field) : bool :=
  match func with
  | VariableField name => (ascii_text name && own_key (toLowerCase name))%bool
  | LiteralField (LString s) => (ascii_text s && own_key (toLowerCase s))%bool
  | _ => true
  end.

Fixpoint plain_field (field : Field) : bool :=
  match field with
  | VariableField name => (ascii_text name && own_key (trim name))%bool
  | LiteralField value => plain_literal value
  | IndexField object index => (plain_field object && plain_field index)%bool
  | BinaryOpField op fleft fright =>
      (ascii_text op && own_key op && plain_field fleft && plain_field fright)%bool
  | FunctionField func arguments =>
      (plain_function func && forallb plain_field arguments)%bool
  | NegatedField child => plain_field child
  | ListField values => forallb plain_field values
  | OtherField => true
  end.

(** A column that is plain, and whose name in the order is a key
    [display] holds. *)
Definition plain_column (nf : NamedField) : bool :=
  (plain_field (nf_field nf) && own_column nf)%bool.

(** An alias that is plain, and whose formula key is a key [formulas]
    holds. *)
Definition plain_alias (nf : NamedField) : bool :=
  (ascii_text (nf_name nf)
   && negb (String.eqb (formula_key (nf_name nf)) "__proto__"))%bool.

(** ** What a limit clause writes *)

(** The number a [LIMIT] clause writes in the view: the number of a
    number literal, else the integer [parseInt] reads from the lowered
    amount; [None] when it writes nothing. *)
Definition limit_written (amount : Field) : option Z :=
  match amount with
  | LiteralField (LNumber n) => Some n
  | _ =>
      match transformFieldExpression amount with
      | Ok limitExpr => parseInt (to_string limitExpr)
      | Throw _ => None
      end
  end.

(** The number the last [LIMIT] clause that writes one has written. *)
Fixpoint last_limit_written (operations : list QueryOperation) : option Z :=
  match operations with
  | [] => None
  | operation :: rest =>
      match last_limit_written rest, operation with
      | Some n, _ => Some n
      | None, LimitStep amount => limit_written amount
      | None, _ => None
      end
  end.

(** A [LIMIT] clause whose amount is plain and whose number, when it
    writes one, is an integer a JavaScript number holds exactly. *)
Definition plain_limit (operation : QueryOperation) : bool :=
  match operation with
  | LimitStep amount =>
      (plain_field amount
       && match limit_written amount with
          | Some n => safe_integer n
          | None => true
          end)%bool
  | _ => true
  end.

(** ** Further sample queries *)

Module Sample2.

(** [TABLE title WHERE date(!done)]: the call of [date] gets an object *)
Definition date_of_negation : Query :=
  {| header := TableQuery [mkNamedField "title" (VariableField "title")] true;
     source := Empty;
     operations :=
       [WhereStep (FunctionField (VariableField "date")
                     [NegatedField (VariableField "done")])] |}.

(** [#book and (#read and "library")] *)
Definition nested_sources : Source :=
  SourceBinaryOp "&" (Tag "#book")
    (SourceBinaryOp "&" (Tag "read") (Folder "library")).

(** [TABLE title, a + b AS "Total" FROM #book WHERE a = 1 WHERE b = 2
    SORT title DESC, a ASC SORT b ASC GROUP BY c LIMIT 5 LIMIT 10] *)
Definition by_title_then_a : list QuerySortBy :=
  [mkSortBy (VariableField "title") descending;
   mkSortBy (VariableField "a") ascending].

Definition every_clause_twice : Query :=
  {| header := TableQuery [mkNamedField "title" (VariableField "title");
                           mkNamedField "Total" Sample.sum_ab] false;
     source := Tag "#book";
     operations :=
       [WhereStep Sample.A; WhereStep Sample.B;
        SortByStep by_title_then_a;
        SortByStep [mkSortBy (VariableField "b") ascending];
        GroupStep (mkNamedField "c" (VariableField "c"));
        LimitStep (LiteralField (LNumber 5));
        LimitStep (LiteralField (LNumber 10))] |}.

(** A parser that reads every text as the query [LIST FROM "notes"
    WHERE a = 1], and a printer that prints nothing. *)
Definition parse_as_list (text : string)
    : outcome (ResultType.Result Query string) :=
  Ok (ResultType.Success Sample.list_query).

Definition print_nothing (config : Config) : outcome string := Ok EmptyString.

(** [TABLE title LIMIT date(!done)], [TABLE title LIMIT 5 LIMIT count]
    and [TABLE title LIMIT 5 + 3] *)
Definition titles (clauses : list QueryOperation) : Query :=
  {| header := TableQuery [mkNamedField "title" (VariableField "title")] true;
     source := Empty;
     operations := clauses |}.

Definition limit_by_call : Query :=
  titles [LimitStep (FunctionField (VariableField "date")
                       [NegatedField (VariableField "done")])].

Definition limit_twice : Query :=
  titles [LimitStep (LiteralField (LNumber 5));
          LimitStep (VariableField "count")].

(** [TABLE title SORT title DESC, a SORT b GROUP BY c
    LIMIT 10 LIMIT 5 + 3 LIMIT count] *)
Definition limits_and_sorts : Query :=
  titles [SortByStep by_title_then_a;
          SortByStep [mkSortBy (VariableField "b") ascending];
          GroupStep (mkNamedField "c" (VariableField "c"));
          LimitStep (LiteralField (LNumber 10));
          LimitStep (BinaryOpField "+" (LiteralField (LNumber 5))
                       (LiteralField (LNumber 3)));
          LimitStep (VariableField "count")].

Definition five_plus_three : Field :=
  BinaryOpField "+" (LiteralField (LNumber 5)) (LiteralField (LNumber 3)).

End Sample2.


(** * Properties *)

(** ** Tactics *)

Ltac inv_ok :=
  repeat match goal with
         | H : Ok _ = Ok _ |- _ => injection H as ?; subst
         | H : Throw _ = Ok _ |- _ => discriminate H
         | H : Ok _ = Throw _ |- _ => discriminate H
         end.

Lemma bind_Ok {A B} (m : outcome A) (k : A -> outcome B) (b : B) :
  bind m k = Ok b -> exists a, m = Ok a /\ k a = Ok b.
Proof. destruct m as [a|e]; simpl; [eauto | discriminate]. Qed.

(** Takes apart a hypothesis [let* x := m in k = Ok v]. *)
Ltac bind_inv H :=
  let a := fresh "a" in
  let Ha := fresh "Ha" in
  apply bind_Ok in H; destruct H as (a & Ha & H).

Lemma flatten_step_length k v :
  not_null v = true -> well_grouped v = true -> is_logical_key k = true ->
  (1 <= List.length (flatten_step k v))%nat.
Proof.
  destruct v as [|s|key items]; simpl; intros Hn Hw Hk; try discriminate; auto.
  destruct (String.eqb key k) eqn:E; simpl; auto.
  apply String.eqb_eq in E. subst key. rewrite Hk in Hw. simpl in Hw.
  apply andb_prop in Hw as [_ Hw]. apply andb_prop in Hw as [_ Hw].
  apply Nat.leb_le in Hw. lia.
Qed.

Lemma flatten_step_no_same k v :
  well_grouped v = true -> is_logical_key k = true ->
  forallb (fun c => negb (same_group k c)) (flatten_step k v) = true.
Proof.
  destruct v as [|s|key items]; simpl; intros Hw Hk; auto.
  destruct (String.eqb key k) eqn:E; simpl.
  - apply String.eqb_eq in E. subst key. rewrite Hk in Hw. simpl in Hw.
    apply andb_prop in Hw as [_ Hw]. apply andb_prop in Hw as [Hw _]. exact Hw.
  - rewrite E. reflexivity.
Qed.

Lemma flatten_step_well_grouped k v :
  well_grouped v = true -> forallb well_grouped (flatten_step k v) = true.
Proof.
  destruct v as [|s|key items]; simpl; intros Hw; auto.
  destruct (String.eqb key k); simpl.
  - apply andb_prop in Hw as [Hw _]. exact Hw.
  - rewrite Hw. reflexivity.
Qed.

(** Two lowered operands always give a group, whose children are the
    operands, those of the same operator replaced by their own children. *)
Lemma flatten_pair k l r :
  is_logical_key k = true ->
  not_null l = true -> not_null r = true ->
  well_grouped l = true -> well_grouped r = true ->
  flattenLogicalOperations k [l; r] = JObj k (flatten_step k l ++ flatten_step k r)
  /\ well_grouped (JObj k (flatten_step k l ++ flatten_step k r)) = true.
Proof.
  intros Hk Hl Hr Wl Wr.
  pose proof (flatten_step_length k l Hl Wl Hk) as Ll.
  pose proof (flatten_step_length k r Hr Wr Hk) as Lr.
  split.
  - unfold flattenLogicalOperations. simpl. rewrite app_nil_r.
    destruct (flatten_step k l) as [|x [|y xs]]; simpl in *; try lia;
      destruct (flatten_step k r) as [|z zs]; simpl in *; try lia; reflexivity.
  - simpl. rewrite Hk. simpl. rewrite !forallb_app.
    rewrite (flatten_step_well_grouped k l Wl), (flatten_step_well_grouped k r Wr).
    rewrite (flatten_step_no_same k l Wl Hk), (flatten_step_no_same k r Wr Hk).
    simpl. apply Nat.leb_le. rewrite length_app. lia.
Qed.

Lemma transformBinaryOp_shape op fl fr l r v :
  not_null l = true -> not_null r = true ->
  well_grouped l = true -> well_grouped r = true ->
  transformBinaryOp op fl fr l r = Ok v ->
  not_null v = true /\ well_grouped v = true.
Proof.
  intros Hl Hr Wl Wr. unfold transformBinaryOp, bind, as_string.
  destruct (String.eqb op "&" || String.eqb op "|")%bool eqn:Elog.
  - destruct (filter_context fl fr l r).
    + intros H. inv_ok.
      assert (Hk : is_logical_key (if String.eqb op "&" then "and" else "or") = true)
        by (destruct (String.eqb op "&"); reflexivity).
      destruct (flatten_pair _ l r Hk Hl Hr Wl Wr) as [-> W]. split; [reflexivity | exact W].
    + intros H. inv_ok. split; reflexivity.
  - intros H.
    repeat match type of H with
           | context [if ?b then _ else _] => destruct b
           | context [match ?x with _ => _ end] => destruct x
           end; inv_ok; split; reflexivity.
Qed.

Lemma lowered_shape field :
  forall v, transformFieldExpression field = Ok v ->
            not_null v = true /\ well_grouped v = true.
Proof.
  induction field as [name|value|object IHo index IHi|op l IHl r IHr
                      |func arguments|child IHc|values|];
    simpl; intros v H.
  - inv_ok. split; reflexivity.
  - inv_ok. split; reflexivity.
  - bind_inv H. bind_inv H. inv_ok. split; reflexivity.
  - bind_inv H. bind_inv H.
    destruct (IHl _ Ha) as [Nl Wl]. destruct (IHr _ Ha0) as [Nr Wr].
    exact (transformBinaryOp_shape op l r a a0 v Nl Nr Wl Wr H).
  - bind_inv H. inv_ok. split; reflexivity.
  - bind_inv H. inv_ok. destruct (IHc _ Ha) as [_ Wc].
    split; [reflexivity|]. simpl. rewrite Wc. reflexivity.
  - bind_inv H. inv_ok. split; reflexivity.
  - inv_ok. split; reflexivity.
Qed.

(** ** Logical groups are flat *)

(** C1. A logical combination [l & r] (resp. [l | r]) lowered in filter
    context gives one [and] (resp. [or]) group.  Its children are the two
    lowered operands, where an operand that is itself a group of the same
    operator is replaced by its own children ([flatten_step]) and any
    other operand, a group of the other operator included, is kept as one
    child; no child is a group of the same operator and there are at
    least two.  Whenever flattening leaves one element,
    [flattenLogicalOperations] gives that element and no group. *)
Theorem C1_logical_groups_are_flat
    (op : string) (fleft fright : Field) (left right : jsval) :
  op = "&" \/ op = "|" ->
  transformFieldExpression fleft = Ok left ->
  transformFieldExpression fright = Ok right ->
  filter_context fleft fright left right = true ->
  let key := if String.eqb op "&" then "and" else "or" in
  let children := flatten_step key left ++ flatten_step key right in
  transformFieldExpression (BinaryOpField op fleft fright)
    = Ok (JObj key children)
  /\ Forall (fun c => same_group key c = false) children
  /\ (2 <= List.length children)%nat
  /\ (forall items, flatten_step key (JObj key items) = items)
  /\ (forall leaf, flatten_step key (JStr leaf) = [JStr leaf])
  /\ (forall other items, String.eqb other key = false ->
        flatten_step key (JObj other items) = [JObj other items])
  /\ (forall operations x,
        flat_map (flatten_step key) operations = [x] ->
        flattenLogicalOperations key operations = x).
Proof.
  intros Hop Hl Hr Hctx key children.
  destruct (lowered_shape _ _ Hl) as [Nl Wl].
  destruct (lowered_shape _ _ Hr) as [Nr Wr].
  assert (Hk : is_logical_key key = true)
    by (subst key; destruct (String.eqb op "&"); reflexivity).
  destruct (flatten_pair key left right Hk Nl Nr Wl Wr) as [Hflat Hwg].
  repeat split.
  - simpl. rewrite Hl, Hr. simpl. unfold transformBinaryOp.
    assert (Hlog : (String.eqb op "&" || String.eqb op "|")%bool = true)
      by (destruct Hop; subst op; reflexivity).
    rewrite Hlog, Hctx. fold key. rewrite Hflat. reflexivity.
  - simpl in Hwg. rewrite Hk in Hwg. simpl in Hwg.
    apply andb_prop in Hwg as [_ Hwg]. apply andb_prop in Hwg as [Hwg _].
    apply List.Forall_forall. intros c Hc.
    rewrite forallb_forall in Hwg. specialize (Hwg c Hc).
    destruct (same_group key c); [discriminate | reflexivity].
  - simpl in Hwg. rewrite Hk in Hwg. simpl in Hwg.
    apply andb_prop in Hwg as [_ Hwg]. apply andb_prop in Hwg as [_ Hwg].
    apply Nat.leb_le in Hwg. exact Hwg.
  - intros items. simpl. rewrite String.eqb_refl. reflexivity.
  - intros other items Hne. simpl. rewrite Hne. reflexivity.
  - intros operations x Hx. unfold flattenLogicalOperations. rewrite Hx.
    reflexivity.
Qed.

(** [A & (B & C)] is one group of three leaves; [A & (B | C)] keeps the
    [or] group as a child. *)
Lemma C1_witness :
  transformFieldExpression
    (BinaryOpField "&" Sample.A (BinaryOpField "&" Sample.B Sample.C))
  = Ok (JObj "and" [JStr "a == 1"; JStr "b == 2"; JStr "c == 3"])
  /\ transformFieldExpression
       (BinaryOpField "&" Sample.A (BinaryOpField "|" Sample.B Sample.C))
     = Ok (JObj "and" [JStr "a == 1"; JObj "or" [JStr "b == 2"; JStr "c == 3"]]).
Proof.
  split.
  - exact (proj1 (C1_logical_groups_are_flat "&" Sample.A
                    (BinaryOpField "&" Sample.B Sample.C)
                    (JStr "a == 1") (JObj "and" [JStr "b == 2"; JStr "c == 3"])
                    (or_introl eq_refl) eq_refl eq_refl eq_refl)).
  - exact (proj1 (C1_logical_groups_are_flat "&" Sample.A
                    (BinaryOpField "|" Sample.B Sample.C)
                    (JStr "a == 1") (JObj "or" [JStr "b == 2"; JStr "c == 3"])
                    (or_introl eq_refl) eq_refl eq_refl eq_refl)).
Defined.
(** ** Date arithmetic *)

(** C2.  The subtraction of a duration that is negative already is not
    negated.  [date(2024-01-01) - (-3 days)] lowers to
    [date("2024-01-01") + "-3 days"]: the text the addition of the same
    duration lowers to, and the text the subtraction of the opposite
    duration, three days, lowers to. *)
Theorem C2_negative_duration_not_negated :
  let back := JStr ("date(" +:+ quoted "2024-01-01" +:+ ") + " +:+ quoted "-3 days") in
  transformFieldExpression
    (BinaryOpField "-" Sample.new_year Sample.three_days_back) = Ok back
  /\ transformFieldExpression
       (BinaryOpField "+" Sample.new_year Sample.three_days_back) = Ok back
  /\ transformFieldExpression
       (BinaryOpField "-" Sample.new_year
          (LiteralField (LDuration (Sample.duration_of_days 3)))) = Ok back.
Proof. cbv zeta. split; [|split]; vm_compute; reflexivity. Qed.
(** ** Durations *)

Lemma append_cons c s r : String c s +:+ r = String c (s +:+ r).
Proof. reflexivity. Qed.

Lemma append_empty_r s : s +:+ EmptyString = s.
Proof.
  induction s as [|c s IH]; [reflexivity|].
  rewrite append_cons, IH. reflexivity.
Qed.

Lemma of_N_not_empty n : is_empty (of_Z (Z.of_N n)) = false.
Proof.
  destruct n as [|p]; [reflexivity|].
  unfold of_Z. simpl. unfold NilZero.string_of_uint.
  destruct (Pos.to_uint p); reflexivity.
Qed.

(** C3.  The duration literal of two weeks keeps its weeks: it lowers to
    ["2 weeks"], where the call of [dur] on that same literal lowers to
    ["14 days"], the text the literal of fourteen days lowers to. *)
Theorem C3_literal_weeks_not_converted :
  let two_weeks := LiteralField (LDuration (Sample.duration_of_weeks 2)) in
  transformFieldExpression two_weeks = Ok (JStr (quoted "2 weeks"))
  /\ transformFieldExpression (dur_call two_weeks) = Ok (JStr (quoted "14 days"))
  /\ transformFieldExpression
       (LiteralField (LDuration (Sample.duration_of_days 14)))
     = Ok (JStr (quoted "14 days")).
Proof. cbv zeta. split; [|split]; vm_compute; reflexivity. Qed.

(** ** Negation *)

(** A lowered source is [null], or a value that is not empty and is
    grouped as lowered filters are. *)
Lemma source_shape s :
  transformSource s = JNull
  \/ (not_null (transformSource s) = true
      /\ truthy (transformSource s) = true
      /\ well_grouped (transformSource s) = true).
Proof.
  induction s as [folder|tag|file|child IH|op l IHl r IHr| |]; simpl.
  - destruct (is_empty folder); [left | right]; auto.
  - right. auto.
  - right. auto.
  - destruct IH as [-> | (Hn & Ht & Hw)]; [left; reflexivity | right].
    rewrite Ht. simpl. rewrite Hw. auto.
  - destruct IHl as [-> | (Hnl & Htl & Hwl)]; destruct IHr as [-> | (Hnr & Htr & Hwr)];
      simpl; rewrite ?Htl, ?Htr; simpl; auto.
    right.
    assert (Hk : is_logical_key (if String.eqb op "&" then "and" else "or") = true)
      by (destruct (String.eqb op "&"); reflexivity).
    destruct (flatten_pair _ _ _ Hk Hnl Hnr Hwl Hwr) as [-> Hw].
    auto.
  - left; reflexivity.
  - left; reflexivity.
Qed.

Lemma source_truthy s :
  transformSource s <> JNull -> truthy (transformSource s) = true.
Proof. destruct (source_shape s) as [-> | (_ & Ht & _)]; [congruence | auto]. Qed.

(** C4, as the code has it.  A negated field lowers to [{not: [c]}], a
    list of one element, whatever the lowered child [c] is, a leaf or a
    group.  A negated source lowers to [{not: [c]}] when its child lowers
    to a predicate [c], and to no predicate ([null]) when its child lowers
    to none. *)
Theorem C4_negation (child : Field) (c : jsval) (s : Source) :
  transformFieldExpression child = Ok c ->
  transformFieldExpression (NegatedField child) = Ok (JObj "not" [c])
  /\ (transformSource s <> JNull ->
      transformSource (Negate s) = JObj "not" [transformSource s])
  /\ (transformSource s = JNull -> transformSource (Negate s) = JNull).
Proof.
  intros Hc. split; [|split].
  - simpl. rewrite Hc. reflexivity.
  - intros Hs. simpl. rewrite (source_truthy s Hs). reflexivity.
  - intros Hs. simpl. rewrite Hs. reflexivity.
Qed.

(** A negated leaf, a negated group and a negated tag. *)
Lemma C4_witness :
  transformFieldExpression (NegatedField Sample.A)
  = Ok (JObj "not" [JStr "a == 1"])
  /\ transformFieldExpression (NegatedField (BinaryOpField "&" Sample.A Sample.B))
     = Ok (JObj "not" [JObj "and" [JStr "a == 1"; JStr "b == 2"]])
  /\ transformSource (Negate (Tag "#book"))
     = JObj "not" [JStr ("file.hasTag(" +:+ quoted "book" +:+ ")")].
Proof.
  split; [|split].
  - exact (proj1 (C4_negation Sample.A (JStr "a == 1") Empty eq_refl)).
  - exact (proj1 (C4_negation (BinaryOpField "&" Sample.A Sample.B)
                    (JObj "and" [JStr "a == 1"; JStr "b == 2"]) Empty eq_refl)).
  - refine (proj1 (proj2 (C4_negation Sample.A (JStr "a == 1") (Tag "#book") eq_refl)) _).
    discriminate.
Defined.

(** The claim of C4 that every negated source gives a group of one
    element fails on a child that lowers to no predicate: the negation of
    the empty folder, and of the empty source, is [null]. *)
Lemma C4_counterexample :
  transformSource (Negate (Folder EmptyString)) = JNull
  /\ transformSource (Negate Empty) = JNull.
Proof. split; reflexivity. Qed.

(** ** Headers *)

(** C5. For a query whose header is [LIST], [TASK] or [CALENDAR],
    [transform] throws an error whose message starts with that keyword,
    and gives no configuration; a query for which [transform] gives a
    configuration has a [TABLE] header. *)
Theorem C5_unsupported_headers (query : Query) (placeFiltersInView : bool) :
  (is_table (header query) = false ->
   transform query placeFiltersInView
   = Throw (Error (header_keyword (header query)
                   +:+ " queries are not supported. Please use TABLE queries instead.")))
  /\ (forall result,
        transform query placeFiltersInView = Ok result ->
        is_table (header query) = true).
Proof.
  unfold transform. destruct (header query) as [fields showId|format showId| |field];
    simpl; split; intros; try discriminate; reflexivity.
Qed.

Lemma C5_witness :
  transform Sample.list_query true
  = Throw (Error "LIST queries are not supported. Please use TABLE queries instead.").
Proof. exact (proj1 (C5_unsupported_headers Sample.list_query true) eq_refl). Defined.

(** ** Columns of a table *)

Lemma transformColumns_bare fields : forall index cols,
  Forall (fun nf => bare_variable nf = true) fields ->
  transformColumns fields index cols
  = Ok {| col_display := enter_columns fields (col_display cols);
          col_order := col_order cols ++ map JStr (map column_name fields);
          col_formulas := col_formulas cols |}.
Proof.
  induction fields as [|nf fields IH]; intros index cols Hbare.
  - simpl. rewrite app_nil_r. destruct cols; reflexivity.
  - apply Forall_cons in Hbare as [Hnf Hrest].
    destruct nf as [label field]. unfold bare_variable in Hnf. simpl in Hnf.
    destruct field; try discriminate.
    cbn [transformColumns transformNamedField nf_field isFormulaField
         transformFieldExpression bind nf_name].
    rewrite (IH _ _ Hrest). unfold add_column. simpl.
    rewrite <- app_assoc. reflexivity.
Qed.

Lemma enter_columns_size fields : forall d : gmap string string,
  NoDup (map column_name fields) ->
  (forall k, k ∈ map column_name fields -> d !! k = None) ->
  size (enter_columns fields d) = (size d + List.length fields)%nat.
Proof.
  induction fields as [|nf fields IH]; intros d Hnodup Hfresh.
  - simpl. lia.
  - simpl in *. apply NoDup_cons in Hnodup as [Hnotin Hnodup].
    unfold enter_columns in *. simpl. rewrite IH.
    + rewrite map_size_insert_None; [lia|]. apply Hfresh. left.
    + exact Hnodup.
    + intros k Hk. rewrite lookup_insert_ne.
      * apply Hfresh. right. exact Hk.
      * intros E. subst k. contradiction.
Qed.

Lemma update_view_columns f r :
  (forall v, view_order (f v) = view_order v) ->
  display (update_view f r) = display r
  /\ formulas (update_view f r) = formulas r
  /\ view_order_of (update_view f r) = view_order_of r.
Proof.
  intros Hf. destruct r as [fl fm d [|v vs]]; unfold view_order_of; simpl;
    rewrite ?Hf; auto.
Qed.

Lemma transformLimitClause_columns amount r r' :
  transformLimitClause amount r = Ok r' ->
  display r' = display r /\ formulas r' = formulas r
  /\ view_order_of r' = view_order_of r.
Proof.
  unfold transformLimitClause. intros H.
  destruct amount as [| [] | | | | | |]; simpl in H;
    repeat match type of H with
           | bind _ _ = Ok _ => bind_inv H
           | context [match parseInt ?x with _ => _ end] => destruct (parseInt x)
           end;
    inv_ok; auto; apply update_view_columns; reflexivity.
Qed.

(** The clauses of a query touch neither [display] nor [order]. *)
Lemma apply_operation_columns operation w r w' r' :
  apply_operation operation (w, r) = Ok (w', r') ->
  display r' = display r /\ formulas r' = formulas r
  /\ view_order_of r' = view_order_of r.
Proof.
  destruct operation as [clause|fields|amount|field|field|fields]; simpl; intros H.
  - bind_inv H. inv_ok. auto.
  - bind_inv H. inv_ok. unfold transformSortClause in Ha. bind_inv Ha. inv_ok.
    apply update_view_columns. reflexivity.
  - bind_inv H. inv_ok. eapply transformLimitClause_columns. eassumption.
  - inv_ok. auto.
  - bind_inv H. inv_ok. unfold transformGroupClause in Ha. bind_inv Ha. inv_ok.
    apply update_view_columns. reflexivity.
  - inv_ok. auto.
Qed.

Lemma apply_operations_columns operations : forall w r w' r',
  apply_operations operations (w, r) = Ok (w', r') ->
  display r' = display r /\ formulas r' = formulas r
  /\ view_order_of r' = view_order_of r.
Proof.
  induction operations as [|operation operations IH]; intros w r w' r' H.
  - simpl in H. inv_ok. auto.
  - simpl in H. bind_inv H. destruct a as [w1 r1].
    destruct (apply_operation_columns _ _ _ _ _ Ha) as (Hd & Hf & Ho).
    destruct (IH _ _ _ _ H) as (Hd' & Hf' & Ho').
    rewrite Hd', Hf', Ho'. auto.
Qed.

Lemma transform_columns query placeFiltersInView result :
  transform query placeFiltersInView = Ok result ->
  exists header_result,
    transformHeader (header query) initial_result = Ok header_result
    /\ display result = display header_result
    /\ formulas result = formulas header_result
    /\ view_order_of result = view_order_of header_result.
Proof.
  unfold transform. intros H. bind_inv H. bind_inv H.
  destruct a0 as [w r].
  destruct (apply_operations_columns _ _ _ _ _ Ha0) as (Hd & Hf & Ho).
  exists a. split; [exact Ha|].
  rewrite <- Hd, <- Hf, <- Ho.
  destruct (truthy _); [destruct placeFiltersInView|]; inv_ok.
  - apply update_view_columns. reflexivity.
  - unfold view_order_of; simpl; auto.
  - auto.
Qed.

Lemma transformHeader_bare fields showId :
  Forall (fun nf => bare_variable nf = true) fields ->
  exists header_result,
    transformHeader (TableQuery fields showId) initial_result = Ok header_result
    /\ view_order_of header_result
       = map JStr (identity_column showId ++ map column_name fields)
    /\ (NoDup (identity_column showId ++ map column_name fields) ->
        display_size header_result
        = (List.length fields + (if showId then 1 else 0))%nat).
Proof.
  intros Hbare. destruct fields as [|nf fields].
  - destruct showId; eexists; (split; [reflexivity|]); (split; [reflexivity|]);
      intros _; unfold display_size; simpl;
      first [apply map_size_singleton | reflexivity].
  - unfold transformHeader. rewrite (transformColumns_bare _ _ _ Hbare).
    cbn [bind col_formulas col_display col_order].
    assert (Hf : col_formulas (initial_columns showId) = ∅)
      by (destruct showId; reflexivity).
    rewrite Hf, map_size_empty. cbn [Nat.ltb Nat.leb].
    eexists. split; [reflexivity|]. split.
    + unfold view_order_of. simpl. rewrite map_app.
      destruct showId; reflexivity.
    + intros Hnodup. unfold display_size. cbn [display set_display update_view].
      rewrite enter_columns_size.
      * destruct showId; simpl.
        -- rewrite map_size_singleton. lia.
        -- rewrite map_size_empty. lia.
      * destruct showId; simpl in Hnodup; [apply NoDup_cons in Hnodup as [_ H]|];
          assumption.
      * intros k Hk. destruct showId; simpl in *.
        -- apply NoDup_cons in Hnodup as [Hnotin _].
           apply lookup_singleton_ne. intros E. subst k. contradiction.
        -- apply lookup_empty.
Qed.

(** C6, as the code has it.  For a table query whose columns are all bare
    variables with plain names, none of them a key that every object
    inherits, whatever its clauses: the header is lowered without error;
    in every configuration [transform] gives, the order of the view is
    the identity column [file.name] (only when [showId]) followed by the
    emitted names of the columns in clause order; and [display] has as
    many entries as there are columns, plus one when [showId], provided
    the names in that order are pairwise distinct (columns emitted under
    one name share one entry).  With no clause at all [transform] gives a
    configuration. *)
Theorem C6_display_and_order
    (fields : list NamedField) (showId : bool) (from : Source)
    (clauses : list QueryOperation) (placeFiltersInView : bool) :
  Forall (fun nf => bare_variable nf = true) fields ->
  forallb plain_column fields = true ->
  let query := {| header := TableQuery fields showId; source := from;
                  operations := clauses |} in
  let order := identity_column showId ++ map column_name fields in
  (forall result,
     transform query placeFiltersInView = Ok result ->
     view_order_of result = map JStr order
     /\ (NoDup order ->
         display_size result
         = (List.length fields + (if showId then 1 else 0))%nat))
  /\ (clauses = [] -> exists result, transform query placeFiltersInView = Ok result).
Proof.
  intros Hbare _ query order.
  destruct (transformHeader_bare fields showId Hbare) as (hr & Hhr & Horder & Hsize).
  split.
  - intros result Hresult.
    destruct (transform_columns _ _ _ Hresult) as (hr' & Hhr' & Hd & _ & Ho).
    subst query. cbn [header] in Hhr'. rewrite Hhr in Hhr'. inv_ok.
    split; [rewrite Ho; exact Horder|].
    intros Hnodup. unfold display_size in *. rewrite Hd. apply Hsize, Hnodup.
  - intros ->. subst query. unfold transform. cbn [header source operations].
    rewrite Hhr. simpl.
    destruct (truthy _); [destruct placeFiltersInView|]; eexists; reflexivity.
Qed.

(** [TABLE title, pages-read] with and without the identity column. *)
Lemma C6_witness :
  (exists result,
     transform (Sample.two_columns true) true = Ok result
     /\ view_order_of result
        = [JStr "file.name"; JStr "title"; JStr "pages_read"]
     /\ display_size result = 3%nat)
  /\ (exists result,
        transform (Sample.two_columns false) true = Ok result
        /\ view_order_of result = [JStr "title"; JStr "pages_read"]
        /\ display_size result = 2%nat).
Proof.
  assert (Hbare : Forall (fun nf => bare_variable nf = true)
                    [mkNamedField "title" (VariableField "title");
                     mkNamedField "pages-read" (VariableField "pages-read")])
    by (repeat constructor).
  assert (Hplain : forallb plain_column
                     [mkNamedField "title" (VariableField "title");
                      mkNamedField "pages-read" (VariableField "pages-read")]
                   = true)
    by (vm_compute; reflexivity).
  assert (Hnodup : forall showId,
             NoDup (identity_column showId ++ ["title"; "pages_read"])).
  { intros showId. apply (bool_decide_unpack _).
    destruct showId; vm_compute; exact I. }
  split.
  - destruct (transform (Sample.two_columns true) true) as [result|e] eqn:Hresult;
      [|vm_compute in Hresult; discriminate].
    exists result. split; [reflexivity|].
    destruct (proj1 (C6_display_and_order _ true (Folder "books")
                       [SortByStep [mkSortBy (VariableField "title") ascending]]
                       true Hbare Hplain) result Hresult) as [Ho Hs].
    split; [exact Ho | exact (Hs (Hnodup true))].
  - destruct (transform (Sample.two_columns false) true) as [result|e] eqn:Hresult;
      [|vm_compute in Hresult; discriminate].
    exists result. split; [reflexivity|].
    destruct (proj1 (C6_display_and_order _ false (Folder "books")
                       [SortByStep [mkSortBy (VariableField "title") ascending]]
                       true Hbare Hplain) result Hresult) as [Ho Hs].
    split; [exact Ho | exact (Hs (Hnodup false))].
Defined.

(** The claim of C6 on the size of [display] fails when a column comes
    twice: for [TABLE a, a], with the identity column, there are two
    fields, the order has three entries and [display] has two. *)
Lemma C6_counterexample :
  exists result,
    transform Sample.same_column_twice true = Ok result
    /\ view_order_of result = [JStr "file.name"; JStr "a"; JStr "a"]
    /\ display_size result = 2%nat
    /\ display_size result <> (2 + 1)%nat.
Proof.
  eexists. split; [vm_compute; reflexivity|].
  split; [vm_compute; reflexivity|].
  split; [vm_compute; reflexivity | vm_compute; discriminate].
Qed.

(** ** Index access *)

(** C7, as the code has it.  An index access whose key is a string that
    is, without regard to case, one of the date-part accessors lowers to
    the lowered base, a dot and the accessor in lower case, apart from
    the rename table.  Any other string key lowers to the chain
    [base.key] passed through [mapDataviewPropertyToBaseProperty], and a
    key that is not a string literal lowers to [base[key]]. *)
Theorem C7_index_access (object index : Field) (o : jsval) (key : string) :
  transformFieldExpression object = Ok o ->
  (In (toLowerCase key) dateAccessors ->
   transformFieldExpression (IndexField object (LiteralField (LString key)))
   = Ok (JStr (to_string o +:+ "." +:+ toLowerCase key)))
  /\ (~ In (toLowerCase key) dateAccessors ->
      transformFieldExpression (IndexField object (LiteralField (LString key)))
      = Ok (JStr (mapDataviewPropertyToBaseProperty (to_string o +:+ "." +:+ key))))
  /\ (is_string_literal index = false ->
      forall i, transformFieldExpression index = Ok i ->
      transformFieldExpression (IndexField object index)
      = Ok (JStr (to_string o +:+ "[" +:+ to_string i +:+ "]"))).
Proof.
  intros Ho.
  assert (Hspec : forall k, includes dateAccessors k = true <-> In k dateAccessors).
  { intros k. unfold includes. rewrite existsb_exists. split.
    - intros (x & Hx & E). apply String.eqb_eq in E. subst. exact Hx.
    - intros Hk. exists k. split; [exact Hk | apply String.eqb_refl]. }
  split; [|split].
  - intros Hin. apply Hspec in Hin. cbn [transformFieldExpression].
    rewrite Ho. cbn [bind transformIndexField]. rewrite Hin. reflexivity.
  - intros Hnot. cbn [transformFieldExpression].
    rewrite Ho. cbn [bind transformIndexField].
    destruct (includes dateAccessors (toLowerCase key)) eqn:E;
      [apply Hspec in E; contradiction | reflexivity].
  - intros Hlit i Hi. cbn [transformFieldExpression]. rewrite Ho, Hi.
    destruct index as [| [] | | | | | |]; try discriminate; reflexivity.
Qed.

(** [due.month] keeps its dot; [file.cday] is renamed by the table. *)
Lemma C7_witness :
  transformFieldExpression Sample.due_month = Ok (JStr "due.month")
  /\ transformFieldExpression Sample.file_cday = Ok (JStr "file.ctime").
Proof.
  split.
  - refine (proj1 (C7_index_access (VariableField "due") OtherField
                     (JStr "due") "month" eq_refl) _).
    simpl. tauto.
  - refine (proj1 (proj2 (C7_index_access (VariableField "file") OtherField
                            (JStr "file") "cday" eq_refl)) _).
    simpl. intros H.
    repeat (destruct H as [H | H]; [discriminate H|]). exact H.
Defined.

(** The claim of C7 that a date-part accessor is rewritten to the prefix
    form fails: [due.month] lowers to [due.month], not to [month(due)]. *)
Lemma C7_counterexample :
  transformFieldExpression Sample.due_month = Ok (JStr "due.month")
  /\ transformFieldExpression Sample.due_month <> Ok (JStr "month(due)").
Proof. split; [reflexivity | discriminate]. Qed.

(** ** Formula keys *)

Lemma transformNamedField_index namedField i j :
  transformNamedField namedField i = transformNamedField namedField j.
Proof. reflexivity. Qed.

(** What the loop over the columns leaves in [formulas]: the expression
    of every formula column whose key no other formula column has, and
    nothing new under the keys of no formula column. *)
Lemma transformColumns_formulas fields : forall index cols cols',
  transformColumns fields index cols = Ok cols' ->
  NoDup (formula_keys fields) ->
  (forall nf v,
     In nf fields -> isFormulaField (nf_field nf) = true ->
     transformFieldExpression (nf_field nf) = Ok v ->
     truthy v = true -> is_empty (formula_key (nf_name nf)) = false ->
     col_formulas cols' !! formula_key (nf_name nf) = Some v)
  /\ (forall k, k ∉ formula_keys fields ->
        col_formulas cols' !! k = col_formulas cols !! k).
Proof.
  induction fields as [|nf0 fields IH]; intros index cols cols' Hrun Hnodup.
  - simpl in Hrun. inv_ok. split; [intros nf v []|reflexivity].
  - cbn [transformColumns] in Hrun. bind_inv Hrun.
    rename a into t, Ha into Ht.
    cbn [formula_keys] in Hnodup.
    assert (Hrest : NoDup (formula_keys fields))
      by (destruct (isFormulaField (nf_field nf0));
          [apply NoDup_cons in Hnodup as [_ H]|]; assumption).
    destruct (IH _ _ _ Hrun Hrest) as [IHa IHb].
    unfold transformNamedField in Ht.
    destruct (isFormulaField (nf_field nf0)) eqn:Hformula.
    + bind_inv Ht. inv_ok. rename a into v0, Ha into Hv0.
      apply NoDup_cons in Hnodup as [Hfresh _].
      split.
      * intros nf v [<-|Hin] Hf Hv Htruthy Hkey.
        -- rewrite (IHb _ Hfresh). unfold add_column. cbn.
           rewrite Hv0 in Hv. inv_ok. rewrite Htruthy, Hkey. cbn.
           apply lookup_insert_eq.
        -- apply IHa; assumption.
      * intros k Hk. cbn [formula_keys] in Hk. rewrite Hformula in Hk.
        apply not_elem_of_cons in Hk as [Hne Hk].
        rewrite (IHb _ Hk). unfold add_column. cbn.
        destruct (truthy v0 && negb (is_empty (formula_key (nf_name nf0))))%bool;
          [apply lookup_insert_ne; congruence | reflexivity].
    + bind_inv Ht. inv_ok.
      split.
      * intros nf v [<-|Hin] Hf Hv Htruthy Hkey; [congruence|].
        apply IHa; assumption.
      * intros k Hk. cbn [formula_keys] in Hk. rewrite Hformula in Hk.
        rewrite (IHb _ Hk). reflexivity.
Qed.

(** C8, as the code has it, for a header whose columns and aliases are
    plain: in ASCII, with no name that every object inherits and no
    formula key [__proto__].  The key of a formula column is its display
    name in lower case with every run of whitespace replaced by one
    underscore, whatever the position of the column.  When the keys of the
    formula columns of the header are pairwise distinct, the expression of
    every formula column whose key is not empty and whose lowered
    expression is not empty is in [formulas] under its key, in every
    configuration [transform] gives. *)
Theorem C8_formula_keys
    (fields : list NamedField) (showId : bool) (from : Source)
    (clauses : list QueryOperation) (placeFiltersInView : bool)
    (result : Config) (namedField : NamedField) (v : jsval) :
  forallb plain_column fields = true ->
  forallb plain_alias fields = true ->
  transform {| header := TableQuery fields showId; source := from;
               operations := clauses |} placeFiltersInView = Ok result ->
  NoDup (formula_keys fields) ->
  In namedField fields ->
  isFormulaField (nf_field namedField) = true ->
  transformFieldExpression (nf_field namedField) = Ok v ->
  truthy v = true ->
  is_empty (formula_key (nf_name namedField)) = false ->
  (forall index,
     transformNamedField namedField index
     = Ok {| fieldName := JStr ("formula." +:+ spaces_to_underscore
                                   (toLowerCase (nf_name namedField)));
             displayName := nf_name namedField;
             formula := Some v;
             formulaKey := Some (spaces_to_underscore
                                   (toLowerCase (nf_name namedField))) |})
  /\ exists formulas_map,
       formulas result = Some formulas_map
       /\ formulas_map !! formula_key (nf_name namedField) = Some v.
Proof.
  intros _ _ Hresult Hnodup Hin Hformula Hv Htruthy Hkey. split.
  - intros index. unfold transformNamedField. rewrite Hformula, Hv. reflexivity.
  - destruct (transform_columns _ _ _ Hresult) as (hr & Hhr & _ & Hf & _).
    cbn [header] in Hhr. rewrite Hf. clear Hresult Hf.
    unfold transformHeader in Hhr.
    destruct fields as [|nf0 fields']; [destruct Hin|].
    bind_inv Hhr. rename a into cols, Ha into Hcols.
    destruct (transformColumns_formulas _ _ _ _ Hcols Hnodup) as [Hall _].
    specialize (Hall _ _ Hin Hformula Hv Htruthy Hkey).
    destruct (Nat.ltb 0 (size (col_formulas cols))) eqn:Hsize.
    + inv_ok. eexists. split; [reflexivity | exact Hall].
    + apply Nat.ltb_ge in Hsize.
      assert (Hempty : col_formulas cols = ∅)
        by (apply map_size_empty_iff; lia).
      rewrite Hempty, lookup_empty in Hall. discriminate.
Qed.

(** Two formula columns with distinct aliases: both expressions are in
    [formulas], under [sum_of_both] and [product]. *)
Lemma C8_witness :
  exists result,
    transform {| header := TableQuery Sample.distinct_aliases true;
                 source := Empty; operations := [] |} true = Ok result
    /\ (exists formulas_map,
          formulas result = Some formulas_map
          /\ formulas_map !! "sum_of_both" = Some (JStr "a + b"))
    /\ (exists formulas_map,
          formulas result = Some formulas_map
          /\ formulas_map !! "product" = Some (JStr "a * b")).
Proof.
  destruct (transform {| header := TableQuery Sample.distinct_aliases true;
                         source := Empty; operations := [] |} true)
    as [result|e] eqn:Hresult; [|vm_compute in Hresult; discriminate].
  assert (Hnodup : NoDup (formula_keys Sample.distinct_aliases))
    by (apply (bool_decide_unpack _); vm_compute; exact I).
  assert (Hcolumns : forallb plain_column Sample.distinct_aliases = true)
    by (vm_compute; reflexivity).
  assert (Haliases : forallb plain_alias Sample.distinct_aliases = true)
    by (vm_compute; reflexivity).
  exists result. split; [reflexivity|]. split.
  - exact (proj2 (C8_formula_keys Sample.distinct_aliases true Empty [] true result
                    (mkNamedField "Sum Of  Both" Sample.sum_ab) (JStr "a + b")
                    Hcolumns Haliases Hresult Hnodup (or_introl eq_refl)
                    eq_refl eq_refl eq_refl eq_refl)).
  - exact (proj2 (C8_formula_keys Sample.distinct_aliases true Empty [] true result
                    (mkNamedField "Product" Sample.product_ab) (JStr "a * b")
                    Hcolumns Haliases Hresult Hnodup (or_intror (or_introl eq_refl))
                    eq_refl eq_refl eq_refl eq_refl)).
Defined.

(** The claim of C8 that no two formula columns get the same key fails:
    the aliases [Total] and [total] give the key [total] to both columns,
    and [formulas] holds the second expression only. *)
Lemma C8_counterexample :
  formula_key "Total" = formula_key "total"
  /\ exists result,
       transform Sample.colliding_aliases true = Ok result
       /\ formulas result = Some {[ "total" := JStr "a * b" ]}
       /\ view_order_of result = [JStr "formula.total"; JStr "formula.total"]
       /\ transformFieldExpression Sample.sum_ab = Ok (JStr "a + b").
Proof.
  split; [reflexivity|]. eexists. split; [vm_compute; reflexivity|].
  split; [vm_compute; reflexivity|]. split; vm_compute; reflexivity.
Qed.

(** ** The limit clause *)

Lemma apply_operations_app before after state :
  apply_operations (before ++ after) state
  = let* state' := apply_operations before state in
    apply_operations after state'.
Proof.
  revert state. induction before as [|operation before IH]; intros state;
    [reflexivity|].
  simpl. destruct (apply_operation operation state) as [state'|e]; simpl;
    [apply IH | reflexivity].
Qed.

Lemma transformLimitClause_other amount limitExpr result :
  is_number_literal amount = false ->
  transformFieldExpression amount = Ok limitExpr ->
  transformLimitClause amount result
  = Ok match parseInt (to_string limitExpr) with
       | Some parsed => update_view (set_limit parsed) result
       | None => result
       end.
Proof.
  intros Hlit Hamount. unfold transformLimitClause. rewrite Hamount.
  destruct amount as [| [] | | | | | |]; try discriminate; simpl;
    destruct (parseInt (to_string limitExpr)); reflexivity.
Qed.

(** Writing the limit of the view: the limit is the number written, and
    the other slots, the columns and the filters are as they were. *)
Lemma set_limit_slots n result :
  views result <> [] ->
  limit_slot (update_view (set_limit n) result) = Some n
  /\ sort_slot (update_view (set_limit n) result) = sort_slot result
  /\ group_slot (update_view (set_limit n) result) = group_slot result
  /\ view_order_of (update_view (set_limit n) result) = view_order_of result
  /\ display (update_view (set_limit n) result) = display result
  /\ formulas (update_view (set_limit n) result) = formulas result
  /\ filters (update_view (set_limit n) result) = filters result.
Proof.
  intros Hviews. destruct result as [fl fm d [|v vs]];
    [exfalso; apply Hviews; reflexivity|].
  repeat split; reflexivity.
Qed.

(** C9, as the code has it, for a plain amount whose lowering returns a
    value.  A limit clause whose amount is a number literal writes that
    number as the limit of the view; one whose amount is anything else
    writes the integer [parseInt] reads from the lowered amount, when it
    reads one (an integer a JavaScript number holds exactly); in both
    cases the other slots of the view, the columns and the filters stay
    as they were.  For every other amount the clause raises no error and
    leaves the configuration, with the limit an earlier clause has
    written, as it was; the query is transformed as the query without
    that clause is. *)
Theorem C9_limit_clause
    (amount : Field) (limitExpr : jsval) (result : Config)
    (table : QueryHeader) (from : Source)
    (before after : list QueryOperation) (placeFiltersInView : bool) :
  plain_field amount = true ->
  transformFieldExpression amount = Ok limitExpr ->
  views result <> [] ->
  let written n :=
    transformLimitClause amount result = Ok (update_view (set_limit n) result)
    /\ limit_slot (update_view (set_limit n) result) = Some n
    /\ sort_slot (update_view (set_limit n) result) = sort_slot result
    /\ group_slot (update_view (set_limit n) result) = group_slot result
    /\ view_order_of (update_view (set_limit n) result) = view_order_of result
    /\ display (update_view (set_limit n) result) = display result
    /\ formulas (update_view (set_limit n) result) = formulas result
    /\ filters (update_view (set_limit n) result) = filters result in
  (forall n, amount = LiteralField (LNumber n) -> written n)
  /\ (is_number_literal amount = false ->
      forall parsed, parseInt (to_string limitExpr) = Some parsed ->
      safe_integer parsed = true -> written parsed)
  /\ (is_number_literal amount = false ->
      parseInt (to_string limitExpr) = None ->
      transformLimitClause amount result = Ok result
      /\ transform {| header := table; source := from;
                      operations := before ++ LimitStep amount :: after |}
           placeFiltersInView
         = transform {| header := table; source := from;
                        operations := before ++ after |}
             placeFiltersInView).
Proof.
  intros _ Hamount Hviews written. subst written. cbv beta. split; [|split].
  - intros n ->. split; [reflexivity | exact (set_limit_slots n result Hviews)].
  - intros Hlit parsed Hparsed _. split; [|exact (set_limit_slots parsed result Hviews)].
    rewrite (transformLimitClause_other _ _ _ Hlit Hamount), Hparsed. reflexivity.
  - intros Hlit Hnan.
    assert (Hstep : forall r, transformLimitClause amount r = Ok r).
    { intros r. rewrite (transformLimitClause_other _ _ _ Hlit Hamount), Hnan.
      reflexivity. }
    split; [apply Hstep|].
    unfold transform. simpl.
    destruct (transformHeader table initial_result) as [r0|e]; [|reflexivity].
    simpl. rewrite !apply_operations_app.
    destruct (apply_operations before (JNull, r0)) as [[w r]|e]; [|reflexivity].
    simpl. rewrite Hstep. reflexivity.
Qed.

(** [LIMIT 5 + 3] writes the limit 5, the integer read from the lowered
    amount [5 + 3]; [LIMIT count] writes none, and the query is
    transformed as the query without the clause is. *)
Lemma C9_witness :
  limit_slot (update_view (set_limit 5) initial_result) = Some 5
  /\ transformLimitClause Sample2.five_plus_three initial_result
     = Ok (update_view (set_limit 5) initial_result)
  /\ transform Sample.limit_by_name true = transform Sample.no_limit true.
Proof.
  assert (Hviews : views initial_result <> []) by discriminate.
  destruct (C9_limit_clause Sample2.five_plus_three (JStr "5 + 3") initial_result
              (header Sample.no_limit) Empty [] [] true
              eq_refl eq_refl Hviews) as (_ & Hparsed & _).
  destruct (Hparsed eq_refl 5 eq_refl eq_refl) as (Hclause & Hlimit & _).
  destruct (C9_limit_clause (VariableField "count") (JStr "count") initial_result
              (header Sample.no_limit) (source Sample.no_limit) [] [] true
              eq_refl eq_refl Hviews) as (_ & _ & Hnone).
  split; [exact Hlimit|]. split; [exact Hclause|].
  exact (proj2 (Hnone eq_refl eq_refl)).
Defined.

(** The claim of C9 that every other amount leaves the view without a
    limit, with no error, fails twice.  For [LIMIT date(!done)] the
    lowering of the amount throws and [transform] gives no configuration.
    For [LIMIT 5 LIMIT count] the second clause writes nothing and the
    view keeps the limit 5. *)
Lemma C9_counterexample :
  (exists message,
     transform Sample2.limit_by_call true = Throw (TypeError message))
  /\ is_number_literal (VariableField "count") = false
  /\ limit_written (VariableField "count") = None
  /\ exists result,
       transform Sample2.limit_twice true = Ok result
       /\ limit_slot result = Some 5.
Proof.
  split; [eexists; vm_compute; reflexivity|].
  split; [reflexivity|]. split; [vm_compute; reflexivity|].
  eexists. split; vm_compute; reflexivity.
Qed.

(** ** Property names *)

Lemma hyphens_to_underscores_get s i :
  String.get i (hyphens_to_underscores s)
  = option_map hyphen_to_underscore (String.get i s).
Proof.
  revert i. induction s as [|c s IH]; intros i; [reflexivity|].
  destruct i as [|i]; simpl; [reflexivity | apply IH].
Qed.

Lemma hyphens_to_underscores_none s :
  includes_hyphen (hyphens_to_underscores s) = false.
Proof.
  induction s as [|c s IH]; [reflexivity|].
  unfold includes_hyphen, hyphens_to_underscores in *.
  cbn [exists_char map_chars]. rewrite IH.
  destruct (Ascii.eqb c "-") eqn:E; [reflexivity|].
  rewrite Ascii.eqb_sym, E. reflexivity.
Qed.

(** C10, as the code has it, for a name in ASCII that is no key every
    object inherits.  The name is trimmed first.  A trimmed name that is
    no key of the rename table and has a hyphen is emitted with every
    [-] replaced by [_], character by character, so that the emitted name
    has no hyphen; a trimmed name that is no key of the table and has no
    hyphen is emitted as it is, so a name with no space around it passes
    unchanged.  A variable lowers to the name so mapped. *)
Theorem C10_property_names (name : string) :
  ascii_text name = true ->
  own_key (trim name) = true ->
  table_get propertyMap (trim name) = None ->
  (includes_hyphen (trim name) = true ->
   mapDataviewPropertyToBaseProperty name = hyphens_to_underscores (trim name)
   /\ (forall i, String.get i (mapDataviewPropertyToBaseProperty name)
                 = option_map hyphen_to_underscore (String.get i (trim name)))
   /\ includes_hyphen (mapDataviewPropertyToBaseProperty name) = false)
  /\ (includes_hyphen (trim name) = false ->
      mapDataviewPropertyToBaseProperty name = trim name
      /\ (trim name = name -> mapDataviewPropertyToBaseProperty name = name))
  /\ transformFieldExpression (VariableField name)
     = Ok (JStr (mapDataviewPropertyToBaseProperty name)).
Proof.
  intros _ _ Htable. unfold mapDataviewPropertyToBaseProperty. rewrite Htable.
  split; [|split].
  - intros Hh. rewrite Hh.
    split; [reflexivity | split].
    + intros i. apply hyphens_to_underscores_get.
    + apply hyphens_to_underscores_none.
  - intros Hh. rewrite Hh. split; [reflexivity | auto].
  - simpl. unfold mapDataviewPropertyToBaseProperty. rewrite Htable. reflexivity.
Qed.

(** [pages-read] becomes [pages_read]; [rating] passes unchanged. *)
Lemma C10_witness :
  mapDataviewPropertyToBaseProperty "pages-read" = "pages_read"
  /\ mapDataviewPropertyToBaseProperty "rating" = "rating".
Proof.
  split.
  - exact (proj1 (proj1 (C10_property_names "pages-read"
                           eq_refl eq_refl eq_refl) eq_refl)).
  - exact (proj1 (proj1 (proj2 (C10_property_names "rating"
                                  eq_refl eq_refl eq_refl)) eq_refl)).
Defined.

(** The claim of C10 that a name with no hyphen and outside the table
    passes unchanged fails on a name with a space at its end: the
    variable [total ] and the chain [a.b ], which has no hyphen and is no
    key of the table, are emitted without the space. *)
Lemma C10_counterexample :
  table_get propertyMap "a.b " = None
  /\ includes_hyphen "a.b " = false
  /\ mapDataviewPropertyToBaseProperty "a.b " = "a.b"
  /\ "a.b" <> "a.b "
  /\ transformFieldExpression Sample.a_b_padded = Ok (JStr "a.b")
  /\ transformFieldExpression (VariableField "total ") = Ok (JStr "total").
Proof. repeat split; discriminate. Qed.

(** * Further properties of the transformer *)

(** ** Induction on expressions *)

(** Induction on a field with the hypothesis available for every argument
    of a call and every element of a list. *)
Lemma Field_nested_ind (P : Field -> Prop) :
  (forall name, P (VariableField name)) ->
  (forall value, P (LiteralField value)) ->
  (forall object index, P object -> P index -> P (IndexField object index)) ->
  (forall op fleft fright, P fleft -> P fright -> P (BinaryOpField op fleft fright)) ->
  (forall func arguments, P func -> Forall P arguments ->
                          P (FunctionField func arguments)) ->
  (forall child, P child -> P (NegatedField child)) ->
  (forall values, Forall P values -> P (ListField values)) ->
  P OtherField ->
  forall field, P field.
Proof.
  intros Hvar Hlit Hidx Hbin Hfun Hneg Hlist Hother.
  fix IH 1. intros field.
  destruct field as [name|value|object index|op fleft fright
                     |func arguments|child|values|].
  - apply Hvar.
  - apply Hlit.
  - apply Hidx; apply IH.
  - apply Hbin; apply IH.
  - apply Hfun; [apply IH|].
    induction arguments as [|a rest IHrest]; constructor; [apply IH | exact IHrest].
  - apply Hneg; apply IH.
  - apply Hlist.
    induction values as [|a rest IHrest]; constructor; [apply IH | exact IHrest].
  - apply Hother.
Qed.

Lemma lower_call func arguments :
  transformFieldExpression (FunctionField func arguments)
  = let* text := transformFunction func arguments (transformFields arguments) in
    Ok (JStr text).
Proof. reflexivity. Qed.

Lemma lower_list values :
  transformFieldExpression (ListField values)
  = let* listItems := transformFields values in
    Ok (JStr ("[" +:+ join_values ", " listItems +:+ "]")).
Proof. reflexivity. Qed.

(** ** What lowering can throw *)

Lemma bind_Throw {A B} (m : outcome A) (k : A -> outcome B) (e : error) :
  bind m k = Throw e -> m = Throw e \/ exists a, m = Ok a /\ k a = Throw e.
Proof.
  destruct m as [a|e']; simpl; intros H; [right; eauto | left; congruence].
Qed.

Lemma as_string_throw what v e :
  as_string what v = Throw e -> is_type_error e = true.
Proof. destruct v; simpl; intros H; inversion H; reflexivity. Qed.

Lemma transformFunction_throw func arguments lowered e :
  transformFunction func arguments lowered = Throw e ->
  lowered = Throw e \/ is_type_error e = true.
Proof.
  unfold transformFunction. intros H. cbv zeta in H.
  repeat match type of H with
         | (if ?b then _ else _) = _ => destruct b
         | match ?x with _ => _ end = _ => destruct x eqn:?
         | bind ?m _ = Throw _ => apply bind_Throw in H as [H | (? & ? & H)]
         | Ok _ = Throw _ => discriminate H
         end;
    try (left; assumption);
    try (right; eapply as_string_throw; eassumption).
Qed.

Lemma transformFields_throw fields e :
  Forall (fun f => forall e, transformFieldExpression f = Throw e ->
                             is_type_error e = true) fields ->
  transformFields fields = Throw e -> is_type_error e = true.
Proof.
  intros Hall. induction Hall as [|f rest Hf _ IH]; simpl; intros H.
  - discriminate.
  - apply bind_Throw in H as [H | (v & _ & H)]; [exact (Hf _ H)|].
    apply bind_Throw in H as [H | (vs & _ & H)]; [exact (IH H) | discriminate].
Qed.

Lemma transformBinaryOp_throw op fl fr l r e :
  transformBinaryOp op fl fr l r = Throw e -> is_type_error e = true.
Proof.
  unfold transformBinaryOp. intros H. cbv zeta in H.
  repeat match type of H with
         | (if ?b then _ else _) = _ => destruct b
         | bind ?m _ = Throw _ => apply bind_Throw in H as [H | (? & ? & H)]
         | Ok _ = Throw _ => discriminate H
         end.
  eapply as_string_throw; eassumption.
Qed.

(** An exception of the lowering of a field is a [TypeError]. *)
Lemma lowering_throws_type_errors field :
  forall e, transformFieldExpression field = Throw e -> is_type_error e = true.
Proof.
  induction field as [name|value|object index IHo IHi|op fl fr IHl IHr
                      |func arguments _ IHargs|child IHc|values IHvalues|]
    using Field_nested_ind; intros e H.
  - discriminate.
  - discriminate.
  - simpl in H. apply bind_Throw in H as [H | (o & _ & H)]; [exact (IHo _ H)|].
    apply bind_Throw in H as [H | (t & _ & H)]; [|discriminate].
    unfold transformIndexField in H.
    destruct index as [| [] | | | | | |];
      try (apply bind_Throw in H as [H | (i & _ & H)];
           [exact (IHi _ H) | discriminate]);
      destruct (includes dateAccessors _); discriminate.
  - simpl in H. apply bind_Throw in H as [H | (l & _ & H)]; [exact (IHl _ H)|].
    apply bind_Throw in H as [H | (r & _ & H)]; [exact (IHr _ H)|].
    exact (transformBinaryOp_throw _ _ _ _ _ _ H).
  - rewrite lower_call in H.
    apply bind_Throw in H as [H | (t & _ & H)]; [|discriminate].
    apply transformFunction_throw in H as [H | H]; [|exact H].
    exact (transformFields_throw _ _ IHargs H).
  - simpl in H. apply bind_Throw in H as [H | (c & _ & H)];
      [exact (IHc _ H) | discriminate].
  - rewrite lower_list in H.
    apply bind_Throw in H as [H | (t & _ & H)]; [|discriminate].
    exact (transformFields_throw _ _ IHvalues H).
  - discriminate.
Qed.

Lemma transformColumns_throw fields : forall index cols e,
  transformColumns fields index cols = Throw e -> is_type_error e = true.
Proof.
  induction fields as [|nf fields IH]; intros index cols e H; [discriminate|].
  cbn [transformColumns] in H.
  apply bind_Throw in H as [H | (t & _ & H)]; [|exact (IH _ _ _ H)].
  unfold transformNamedField in H.
  destruct (isFormulaField (nf_field nf));
    (apply bind_Throw in H as [H | (v & _ & H)];
     [exact (lowering_throws_type_errors _ _ H) | discriminate]).
Qed.

Lemma sort_entries_throw fields e :
  sort_entries fields = Throw e -> is_type_error e = true.
Proof.
  induction fields as [|f fields IH]; simpl; intros H; [discriminate|].
  apply bind_Throw in H as [H | (c & _ & H)];
    [exact (lowering_throws_type_errors _ _ H)|].
  apply bind_Throw in H as [H | (es & _ & H)]; [exact (IH H) | discriminate].
Qed.

Lemma apply_operation_throw operation state e :
  apply_operation operation state = Throw e -> is_type_error e = true.
Proof.
  destruct state as [w r].
  destruct operation as [clause|fields|amount|field|field|fields]; simpl; intros H;
    try discriminate;
    apply bind_Throw in H as [H | (x & _ & H)]; try discriminate.
  - exact (lowering_throws_type_errors _ _ H).
  - unfold transformSortClause in H.
    apply bind_Throw in H as [H | (x & _ & H)]; [|discriminate].
    exact (sort_entries_throw _ _ H).
  - unfold transformLimitClause in H.
    destruct amount as [| [] | | | | | |]; try discriminate;
      (apply bind_Throw in H as [H | (x & _ & H)];
       [exact (lowering_throws_type_errors _ _ H)
       | destruct (parseInt _); discriminate]).
  - unfold transformGroupClause in H.
    apply bind_Throw in H as [H | (x & _ & H)]; [|discriminate].
    exact (lowering_throws_type_errors _ _ H).
Qed.

Lemma apply_operations_throw operations : forall state e,
  apply_operations operations state = Throw e -> is_type_error e = true.
Proof.
  induction operations as [|operation operations IH]; intros state e H;
    [discriminate|].
  simpl in H. apply bind_Throw in H as [H | (s & _ & H)];
    [exact (apply_operation_throw _ _ _ H) | exact (IH _ _ H)].
Qed.

Lemma transform_throws
    (query : Query) (placeFiltersInView : bool) (e : error) :
  transform query placeFiltersInView = Throw e ->
  if is_table (header query)
  then is_type_error e = true
  else e = Error (header_keyword (header query)
                  +:+ " queries are not supported. Please use TABLE queries instead.").
Proof.
  unfold transform. intros H.
  destruct (header query) as [fields showId|format showId| |field] eqn:Hh;
    cbn [is_table header_keyword];
    try (simpl in H; injection H as <-; reflexivity).
  apply bind_Throw in H as [H | (r & _ & H)].
  - unfold transformHeader in H. destruct fields as [|nf fields].
    + destruct showId; discriminate.
    + apply bind_Throw in H as [H | (cols & _ & H)];
        [exact (transformColumns_throw _ _ _ _ H)|].
      destruct (Nat.ltb _ _); discriminate.
  - apply bind_Throw in H as [H | ([w r'] & _ & H)];
      [exact (apply_operations_throw _ _ _ H)|].
    destruct (truthy _); [destruct placeFiltersInView|]; discriminate.
Qed.

(** X1.  The only [Error] the transformer raises itself is the one for a
    header other than [TABLE]: when [transform] throws an [Error], the
    header is no [TABLE] and the message names its keyword, whatever the
    rest of the query.  (A [TypeError] is no [Error] here, nor is the
    [RangeError] of an exhausted call stack.) *)
Theorem errors_name_the_header
    (query : Query) (placeFiltersInView : bool) (message : string) :
  transform query placeFiltersInView = Throw (Error message) ->
  is_table (header query) = false
  /\ message = header_keyword (header query)
               +:+ " queries are not supported. Please use TABLE queries instead.".
Proof.
  intros H. pose proof (transform_throws _ _ _ H) as Hkind.
  destruct (is_table (header query)); [discriminate Hkind|].
  split; [reflexivity|]. injection Hkind as ->. reflexivity.
Qed.

Lemma errors_name_the_header_witness :
  is_table (header Sample.list_query) = false
  /\ "LIST queries are not supported. Please use TABLE queries instead."
     = header_keyword (header Sample.list_query)
       +:+ " queries are not supported. Please use TABLE queries instead.".
Proof.
  exact (errors_name_the_header Sample.list_query true
           "LIST queries are not supported. Please use TABLE queries instead."
           eq_refl).
Defined.

(** ** Expressions without calls are always lowered *)

Lemma transformFields_ok fields :
  Forall (fun f => exists v, transformFieldExpression f = Ok v) fields ->
  exists vs, transformFields fields = Ok vs.
Proof.
  intros Hall. induction Hall as [|f rest [v Hv] _ [vs Hvs]]; simpl.
  - eauto.
  - rewrite Hv, Hvs. simpl. eauto.
Qed.

Lemma transformIndexField_ok object index i :
  exists text, transformIndexField object index (Ok i) = Ok text.
Proof.
  unfold transformIndexField.
  destruct index as [| [s| | | | | |] | | | | | |]; unfold bind; eauto.
  destruct (includes dateAccessors (toLowerCase s)); eauto.
Qed.

Lemma transformBinaryOp_ok op fl fr l r :
  (isRightDuration fr = true -> exists text, r = JStr text) ->
  exists v, transformBinaryOp op fl fr l r = Ok v.
Proof.
  intros Hr. unfold transformBinaryOp. cbv zeta.
  destruct (isRightDuration fr) eqn:Hdur.
  - destruct (Hr eq_refl) as [text ->]. simpl.
    repeat match goal with
           | |- context [if ?b then _ else _] => destruct b
           end; eauto.
  - rewrite andb_false_r.
    repeat match goal with
           | |- context [if ?b then _ else _] => destruct b
           end; eauto.
Qed.

Lemma literal_duration_text fr r :
  no_calls fr = true -> isRightDuration fr = true ->
  transformFieldExpression fr = Ok r -> exists text, r = JStr text.
Proof.
  destruct fr as [| [] | | | [] | | |]; simpl; try discriminate;
    intros _ _ H; injection H as <-; eauto.
Qed.

(** The lowering of an expression with no function call in it returns a
    value. *)
Lemma call_free_lowering field :
  no_calls field = true -> exists v, transformFieldExpression field = Ok v.
Proof.
  induction field as [name|value|object index IHo IHi|op fl fr IHl IHr
                      |func arguments _ _|child IHc|values IHvalues|]
    using Field_nested_ind; simpl; intros Hfree; eauto.
  - apply andb_prop in Hfree as [Ho Hi].
    destruct (IHo Ho) as [o ->]. destruct (IHi Hi) as [i ->]. simpl.
    destruct (transformIndexField_ok o index i) as [text ->]. simpl. eauto.
  - apply andb_prop in Hfree as [Hl Hr].
    destruct (IHl Hl) as [l Hlv]. destruct (IHr Hr) as [r Hrv].
    rewrite Hlv, Hrv. simpl. apply transformBinaryOp_ok.
    intros Hdur. exact (literal_duration_text fr r Hr Hdur Hrv).
  - discriminate.
  - destruct (IHc Hfree) as [c ->]. simpl. eauto.
  - fold (transformFields values).
    assert (Hall : Forall (fun f => exists v, transformFieldExpression f = Ok v) values).
    { rewrite forallb_forall in Hfree. apply List.Forall_forall. intros f Hf.
      rewrite List.Forall_forall in IHvalues. exact (IHvalues f Hf (Hfree f Hf)). }
    destruct (transformFields_ok _ Hall) as [vs ->]. simpl. eauto.
Qed.

(** ** When [transform] returns a configuration *)

Lemma outcome_cases {A} (m : outcome A) : (exists a, m = Ok a) \/ (exists e, m = Throw e).
Proof. destruct m; eauto. Qed.

Lemma transformColumns_lowers fields : forall index cols,
  (exists cols', transformColumns fields index cols = Ok cols')
  <-> Forall lowers (map nf_field fields).
Proof.
  induction fields as [|nf fields IH]; intros index cols; simpl.
  - split; [constructor | eauto].
  - unfold transformNamedField. split.
    + intros [cols' H]. bind_inv H.
      assert (Hnf : lowers (nf_field nf)).
      { destruct (isFormulaField (nf_field nf)); bind_inv Ha; unfold lowers; eauto. }
      constructor; [exact Hnf|]. eapply IH. eauto.
    + intros Hall. apply Forall_cons in Hall as [[v Hv] Hrest].
      rewrite Hv. destruct (isFormulaField (nf_field nf)); simpl; apply IH, Hrest.
Qed.

Lemma sort_entries_lowers fields :
  (exists entries, sort_entries fields = Ok entries)
  <-> Forall lowers (map sb_field fields).
Proof.
  induction fields as [|f fields IH]; simpl.
  - split; [constructor | eauto].
  - split.
    + intros [entries H]. bind_inv H. bind_inv H.
      constructor; [unfold lowers; eauto | apply IH; eauto].
    + intros Hall. apply Forall_cons in Hall as [[v Hv] Hrest].
      apply IH in Hrest as [entries Hentries].
      rewrite Hv, Hentries. simpl. eauto.
Qed.

Lemma apply_operation_lowers operation state :
  (exists state', apply_operation operation state = Ok state')
  <-> Forall lowers (operation_fields operation).
Proof.
  destruct state as [w r].
  destruct operation as [clause|fields|amount|field|field|fields]; simpl.
  - split.
    + intros [s H]. bind_inv H. repeat constructor. unfold lowers; eauto.
    + intros Hall. apply Forall_cons in Hall as [[v ->] _]. simpl. eauto.
  - unfold transformSortClause. rewrite <- sort_entries_lowers. split.
    + intros [s H]. bind_inv H. bind_inv Ha. eauto.
    + intros [entries ->]. simpl. eauto.
  - split.
    + intros [s H]. bind_inv H. repeat constructor.
      destruct (outcome_cases (transformFieldExpression amount)) as [Hok | [e He]];
        [exact Hok|].
      unfold transformLimitClause in Ha. rewrite He in Ha.
      destruct amount as [| [] | | | | | |]; simpl in *; discriminate.
    + intros Hall. apply Forall_cons in Hall as [[v Hv] _].
      unfold transformLimitClause. rewrite Hv. simpl.
      destruct amount as [| [] | | | | | |]; simpl;
        try match goal with
            | |- context [parseInt ?x] => destruct (parseInt x)
            end; eauto.
  - split; eauto.
  - unfold transformGroupClause. split.
    + intros [s H]. bind_inv H. bind_inv Ha. repeat constructor. unfold lowers; eauto.
    + intros Hall. apply Forall_cons in Hall as [[v ->] _]. simpl. eauto.
  - split; eauto.
Qed.

Lemma apply_operations_lowers operations : forall state,
  (exists state', apply_operations operations state = Ok state')
  <-> Forall lowers (flat_map operation_fields operations).
Proof.
  induction operations as [|operation operations IH]; intros state; simpl.
  - split; [constructor | eauto].
  - rewrite Forall_app, <- (apply_operation_lowers operation state). split.
    + intros [s H]. bind_inv H. split; [eauto | apply (IH a); eauto].
    + intros [[s1 Hs1] Hrest]. rewrite Hs1. simpl. apply IH, Hrest.
Qed.

Lemma transform_returns (query : Query) (placeFiltersInView : bool) :
  (exists result, transform query placeFiltersInView = Ok result)
  <-> is_table (header query) = true /\ Forall lowers (query_fields query).
Proof.
  unfold transform, query_fields. rewrite Forall_app.
  destruct (header query) as [fields showId|format showId| |field];
    cbn [is_table header_fields];
    try (split; [intros [r H]; discriminate | intros [H _]; discriminate]).
  rewrite <- (transformColumns_lowers fields 0 (initial_columns showId)).
  split.
  - intros [result H]. bind_inv H. bind_inv H. split; [reflexivity|]. split.
    + unfold transformHeader in Ha. destruct fields as [|nf fields]; [simpl; eauto|].
      bind_inv Ha. eauto.
    + apply (apply_operations_lowers _ (JNull, a)). eauto.
  - intros (_ & [cols Hcols] & Hops).
    assert (Hh : exists r, transformHeader (TableQuery fields showId) initial_result = Ok r).
    { unfold transformHeader. destruct fields as [|nf fields];
        [destruct showId; eauto|].
      rewrite Hcols. simpl. destruct (Nat.ltb _ _); eauto. }
    destruct Hh as [r ->]. simpl.
    destruct (proj2 (apply_operations_lowers (operations query) (JNull, r)) Hops)
      as [[w r'] Hrun].
    rewrite Hrun. simpl.
    destruct (truthy _); [destruct placeFiltersInView|]; eauto.
Qed.

(** X2.  [transform] returns a configuration exactly when the header is
    [TABLE] and the lowering of every expression of the query (the
    columns, and the expressions of the WHERE, SORT, LIMIT and GROUP BY
    clauses) returns a value. *)
Theorem transform_returns_iff (query : Query) (placeFiltersInView : bool) :
  (exists result, transform query placeFiltersInView = Ok result)
  <-> is_table (header query) = true /\ Forall lowers (query_fields query).
Proof. exact (transform_returns query placeFiltersInView). Qed.

(** X3.  A [TypeError] of [transform] comes from a function call: when
    [transform] throws a [TypeError], some expression of the query has a
    function call in it.  A query with no function call raises none. *)
Theorem type_errors_come_from_calls
    (query : Query) (placeFiltersInView : bool) (message : string) :
  transform query placeFiltersInView = Throw (TypeError message) ->
  forallb no_calls (query_fields query) = false.
Proof.
  intros H. destruct (forallb no_calls (query_fields query)) eqn:Hfree;
    [exfalso | reflexivity].
  destruct (is_table (header query)) eqn:Htable.
  - assert (Hreturns : exists result, transform query placeFiltersInView = Ok result).
    { apply transform_returns. split; [exact Htable|].
      apply List.Forall_forall. intros f Hin. apply call_free_lowering.
      exact (proj1 (forallb_forall _ _) Hfree f Hin). }
    destruct Hreturns as [result Hresult]. congruence.
  - pose proof (transform_throws _ _ _ H) as Hkind. rewrite Htable in Hkind.
    discriminate Hkind.
Qed.

Lemma type_errors_come_from_calls_witness :
  forallb no_calls (query_fields Sample2.date_of_negation) = false.
Proof.
  exact (type_errors_come_from_calls Sample2.date_of_negation true
           "args[0].replace is not a function" eq_refl).
Defined.

(** ** The shape of the configuration *)

Lemma update_view_frame f r :
  (forall v, view_type (f v) = view_type v) ->
  (forall v, view_name (f v) = view_name v) ->
  (forall v, view_filters (f v) = view_filters v) ->
  frame (update_view f r) = frame r.
Proof.
  intros Ht Hn Hf. destruct r as [fl fm d [|v vs]]; unfold frame; simpl;
    rewrite ?Ht, ?Hn, ?Hf; reflexivity.
Qed.

Lemma apply_operation_frame operation w r w' r' :
  apply_operation operation (w, r) = Ok (w', r') -> frame r' = frame r.
Proof.
  destruct operation as [clause|fields|amount|field|field|fields]; simpl; intros H.
  - bind_inv H. inv_ok. reflexivity.
  - bind_inv H. inv_ok. unfold transformSortClause in Ha. bind_inv Ha. inv_ok.
    apply update_view_frame; reflexivity.
  - bind_inv H. inv_ok. unfold transformLimitClause in Ha.
    destruct amount as [| [] | | | | | |]; simpl in Ha;
      repeat match type of Ha with
             | bind _ _ = Ok _ => bind_inv Ha
             | context [match parseInt ?x with _ => _ end] => destruct (parseInt x)
             end;
      inv_ok; try reflexivity; apply update_view_frame; reflexivity.
  - inv_ok. reflexivity.
  - bind_inv H. inv_ok. unfold transformGroupClause in Ha. bind_inv Ha. inv_ok.
    apply update_view_frame; reflexivity.
  - inv_ok. reflexivity.
Qed.

Lemma apply_operations_frame operations : forall w r w' r',
  apply_operations operations (w, r) = Ok (w', r') -> frame r' = frame r.
Proof.
  induction operations as [|operation operations IH]; intros w r w' r' H.
  - simpl in H. inv_ok. reflexivity.
  - simpl in H. bind_inv H. destruct a as [w1 r1].
    rewrite (IH _ _ _ _ H). exact (apply_operation_frame _ _ _ _ _ Ha).
Qed.

Lemma transformHeader_frame h r :
  transformHeader h initial_result = Ok r ->
  frame r = (None, [("table", "Default view", None)]).
Proof.
  unfold transformHeader. destruct h as [fields showId|format showId| |field];
    try discriminate.
  destruct fields as [|nf fields].
  - destruct showId; intros H; inv_ok; reflexivity.
  - intros H. bind_inv H. destruct (Nat.ltb _ _); inv_ok; reflexivity.
Qed.

(** What [transform] computes, step by step. *)
Lemma transform_steps query placeFiltersInView result :
  transform query placeFiltersInView = Ok result ->
  exists r0 w r,
    transformHeader (header query) initial_result = Ok r0
    /\ apply_operations (operations query) (JNull, r0) = Ok (w, r)
    /\ frame r = (None, [("table", "Default view", None)])
    /\ result
       = let c := combineFilters (transformSource (source query)) w in
         if truthy c
         then if placeFiltersInView
              then update_view (set_view_filters c) r
              else set_filters c r
         else r.
Proof.
  unfold transform. intros H. bind_inv H. bind_inv H. destruct a0 as [w r].
  exists a, w, r. split; [exact Ha|]. split; [exact Ha0|]. split.
  - rewrite (apply_operations_frame _ _ _ _ _ Ha0). exact (transformHeader_frame _ _ Ha).
  - cbv zeta. destruct (truthy _); [destruct placeFiltersInView|]; inv_ok; reflexivity.
Qed.

Lemma frame_single r t n f :
  frame r = (None, [(t, n, f)]) ->
  filters r = None
  /\ exists v, views r = [v] /\ view_type v = t /\ view_name v = n /\ view_filters v = f.
Proof.
  unfold frame. destruct r as [fl fm d [|v [|v' vs]]]; simpl; intros H;
    try discriminate.
  injection H as -> <- <- <-. split; [reflexivity|]. exists v. auto.
Qed.

(** X4.  Every configuration [transform] returns has exactly one view, of
    type [table] and named [Default view]; and the filter is in one place
    only: in the view and not at the top level when [placeFiltersInView]
    is true, at the top level and not in the view when it is false. *)
Theorem transform_single_view
    (query : Query) (placeFiltersInView : bool) (result : Config) :
  transform query placeFiltersInView = Ok result ->
  exists view,
    views result = [view]
    /\ view_type view = "table"
    /\ view_name view = "Default view"
    /\ (if placeFiltersInView
        then filters result = None
        else view_filters view = None).
Proof.
  intros H. destruct (transform_steps _ _ _ H) as (r0 & w & r & _ & _ & Hframe & ->).
  destruct (frame_single _ _ _ _ Hframe) as (Hfl & v & Hv & Ht & Hn & Hf).
  cbv zeta. destruct (truthy _); [destruct placeFiltersInView|].
  - destruct r as [fl fm d vs]. simpl in *. subst vs. eexists.
    split; [reflexivity|]. simpl. auto.
  - exists v. simpl. auto.
  - exists v. destruct placeFiltersInView; auto.
Qed.

(** X5.  The two placements of the filter give the same configuration up
    to the place: [transform] with [placeFiltersInView] false returns what
    it returns with [placeFiltersInView] true, the filter of the view
    moved to the top level; and it throws what that throws. *)
Theorem transform_filter_placement (query : Query) :
  transform query false
  = let* result := transform query true in Ok (filters_to_top result).
Proof.
  destruct (transform query true) as [result|e] eqn:Htrue.
  - destruct (transform_steps _ _ _ Htrue) as (r0 & w & r & H0 & Hops & Hframe & ->).
    unfold transform. rewrite H0. simpl. rewrite Hops. simpl.
    destruct (frame_single _ _ _ _ Hframe) as (Hfl & v & Hv & _ & _ & Hf).
    destruct r as [fl fm d vs]. simpl in *. subst fl vs.
    destruct v as [t n lim vf ord grp srt]. simpl in Hf. subst vf.
    destruct (truthy _); reflexivity.
  - unfold transform in *.
    destruct (transformHeader (header query) initial_result) as [r0|e0];
      [|exact Htrue].
    simpl in *.
    destruct (apply_operations (operations query) (JNull, r0)) as [[w r]|e1];
      [|exact Htrue].
    simpl in *. destruct (truthy _); discriminate.
Qed.

(** ** The filter of the configuration *)

Lemma apply_operations_where operations : forall w r w' r',
  apply_operations operations (w, r) = Ok (w', r') ->
  match last_where operations with
  | Some clause => transformFieldExpression clause = Ok w'
  | None => w' = w
  end.
Proof.
  induction operations as [|operation operations IH]; intros w r w' r' H.
  - simpl in H. inv_ok. reflexivity.
  - simpl in H. bind_inv H. destruct a as [w1 r1].
    specialize (IH _ _ _ _ H). cbn [last_where].
    destruct (last_where operations) as [clause|]; [exact IH|]. subst w'.
    destruct operation as [clause|fields|amount|field|field|fields]; simpl in Ha;
      try (bind_inv Ha); inv_ok; auto.
Qed.

(** X6.  The filter of the view is the combination [combineFilters] of
    the lowered source and of the lowered clause of the last WHERE of the
    query, earlier WHERE clauses being overwritten; with no WHERE it is
    the lowered source alone; and the view has no filter when that
    combination is empty. *)
Theorem transform_filter (query : Query) (result : Config) :
  transform query true = Ok result ->
  exists view w,
    views result = [view]
    /\ match last_where (operations query) with
       | Some clause => transformFieldExpression clause = Ok w
       | None => w = JNull
       end
    /\ view_filters view
       = let c := combineFilters (transformSource (source query)) w in
         if truthy c then Some c else None.
Proof.
  intros H. destruct (transform_steps _ _ _ H) as (r0 & w & r & _ & Hops & Hframe & ->).
  destruct (frame_single _ _ _ _ Hframe) as (_ & v & Hv & _ & _ & Hf).
  pose proof (apply_operations_where _ _ _ _ _ Hops) as Hw.
  cbv zeta. destruct (truthy _) eqn:Hc.
  - destruct r as [fl fm d vs]. simpl in *. subst vs.
    eexists. exists w. split; [reflexivity|]. split; [exact Hw|].
    rewrite ?Hc. reflexivity.
  - exists v, w. rewrite ?Hc. auto.
Qed.

Lemma truthy_not_null v : truthy v = true -> not_null v = true.
Proof. destruct v; simpl; auto. Qed.

(** X7.  How the source and the WHERE clause combine.  With [s] the
    lowered source and [w] a lowered clause: a clause lowered to the empty
    text leaves [s]; with no source predicate the filter is [w]; with
    both, the filter is one [and] group of the children of [s] and of
    [w], an operand that is itself an [and] group giving its children.
    In every case the filter keeps the flattening invariant: no group has
    a child group of its own operator. *)
Theorem combine_source_and_where (from : Source) (clause : Field) (w : jsval) :
  transformFieldExpression clause = Ok w ->
  let s := transformSource from in
  let c := combineFilters s w in
  well_grouped c = true
  /\ (truthy w = false -> c = s)
  /\ (s = JNull -> truthy w = true -> c = w)
  /\ (s <> JNull -> truthy w = true ->
      c = JObj "and" (flatten_step "and" s ++ flatten_step "and" w)).
Proof.
  intros Hw s c. subst c. unfold combineFilters.
  destruct (lowered_shape _ _ Hw) as [Nw Ww].
  destruct (source_shape from) as [Hs | (Ns & Ts & Ws)]; fold s in Hs || fold s in Ns, Ts, Ws.
  - rewrite Hs. simpl. destruct (truthy w) eqn:Tw; simpl.
    + repeat split; first [assumption | congruence].
    + repeat split; first [assumption | congruence].
  - rewrite Ts. simpl. destruct (truthy w) eqn:Tw; simpl.
    + destruct (flatten_pair "and" s w eq_refl Ns Nw Ws Ww) as [-> Wc].
      split; [exact Wc|]. split; [congruence|]. split; [|reflexivity].
      intros Hnull. rewrite Hnull in Ns. discriminate.
    + repeat split; first [assumption | congruence].
Qed.

(** ** The slots of the view *)

Lemma update_view_slots f r :
  views r <> [] ->
  first_view (update_view f r) = option_map f (first_view r).
Proof. destruct r as [fl fm d [|v vs]]; simpl; [congruence | reflexivity]. Qed.

Lemma apply_operation_views operation w r w' r' :
  apply_operation operation (w, r) = Ok (w', r') ->
  views r <> [] -> views r' <> [].
Proof.
  intros H Hne Hnil. apply apply_operation_frame in H. unfold frame in H.
  injection H as _ H. rewrite Hnil in H. destruct (views r); [congruence | discriminate].
Qed.

Lemma transformLimitClause_bind amount result :
  is_number_literal amount = false ->
  transformLimitClause amount result
  = let* limitExpr := transformFieldExpression amount in
    match parseInt (to_string limitExpr) with
    | Some parsed => Ok (update_view (set_limit parsed) result)
    | None => Ok result
    end.
Proof. destruct amount as [| [] | | | | | |]; try discriminate; reflexivity. Qed.

Lemma limit_written_other amount limitExpr :
  is_number_literal amount = false ->
  transformFieldExpression amount = Ok limitExpr ->
  limit_written amount = parseInt (to_string limitExpr).
Proof.
  intros Hlit H. unfold limit_written. rewrite H.
  destruct amount as [| [] | | | | | |]; try discriminate; reflexivity.
Qed.

Lemma apply_operation_slots operation w r w' r' :
  apply_operation operation (w, r) = Ok (w', r') ->
  views r <> [] ->
  match operation with
  | SortByStep fields =>
      exists entries, sort_entries fields = Ok entries
                      /\ sort_slot r' = Some entries
  | _ => sort_slot r' = sort_slot r
  end
  /\ match operation with
     | GroupStep field =>
         exists g, transformFieldExpression (nf_field field) = Ok g
                   /\ group_slot r' = Some g
     | _ => group_slot r' = group_slot r
     end
  /\ match operation with
     | LimitStep amount =>
         limit_slot r' = match limit_written amount with
                         | Some n => Some n
                         | None => limit_slot r
                         end
     | _ => limit_slot r' = limit_slot r
     end.
Proof.
  intros H Hne.
  assert (Hfirst : exists v, first_view r = Some v)
    by (unfold first_view; destruct (views r); [congruence | eauto]).
  destruct Hfirst as [v Hv].
  unfold sort_slot, group_slot, limit_slot.
  destruct operation as [clause|fields|amount|field|field|fields]; simpl in H.
  - bind_inv H. inv_ok. auto.
  - bind_inv H. inv_ok. unfold transformSortClause in Ha. bind_inv Ha. inv_ok.
    rewrite (update_view_slots _ _ Hne), Hv. simpl. eauto.
  - bind_inv H. inv_ok. destruct (is_number_literal amount) eqn:Hlit.
    + destruct amount as [| [] | | | | | |]; try discriminate.
      simpl in Ha. inv_ok. rewrite (update_view_slots _ _ Hne), Hv. simpl. auto.
    + rewrite (transformLimitClause_bind _ _ Hlit) in Ha.
      apply bind_Ok in Ha as (limitExpr & Hlow & Ha).
      rewrite (limit_written_other _ _ Hlit Hlow).
      destruct (parseInt (to_string limitExpr)); inv_ok;
        rewrite ?(update_view_slots _ _ Hne), ?Hv; simpl; auto.
  - inv_ok. auto.
  - bind_inv H. inv_ok. unfold transformGroupClause in Ha. bind_inv Ha. inv_ok.
    rewrite (update_view_slots _ _ Hne), Hv. simpl. eauto.
  - inv_ok. auto.
Qed.

Lemma apply_operations_slots operations : forall w r w' r',
  apply_operations operations (w, r) = Ok (w', r') ->
  views r <> [] ->
  match last_sort operations with
  | Some fields =>
      exists entries, sort_entries fields = Ok entries
                      /\ sort_slot r' = Some entries
  | None => sort_slot r' = sort_slot r
  end
  /\ match last_group operations with
     | Some field =>
         exists g, transformFieldExpression (nf_field field) = Ok g
                   /\ group_slot r' = Some g
     | None => group_slot r' = group_slot r
     end
  /\ limit_slot r' = match last_limit_written operations with
                     | Some n => Some n
                     | None => limit_slot r
                     end.
Proof.
  induction operations as [|operation operations IH]; intros w r w' r' H Hne.
  - simpl in H. inv_ok. simpl. auto.
  - simpl in H. bind_inv H. destruct a as [w1 r1].
    pose proof (apply_operation_views _ _ _ _ _ Ha Hne) as Hne1.
    destruct (apply_operation_slots _ _ _ _ _ Ha Hne) as (S1 & G1 & L1).
    destruct (IH _ _ _ _ H Hne1) as (S2 & G2 & L2).
    cbn [last_sort last_group last_limit_written].
    split; [|split].
    + destruct (last_sort operations); [exact S2|].
      destruct operation; rewrite S2; exact S1.
    + destruct (last_group operations); [exact G2|].
      destruct operation; rewrite G2; exact G1.
    + rewrite L2. destruct (last_limit_written operations) as [n|]; [reflexivity|].
      destruct operation; exact L1.
Qed.

Lemma transformHeader_slots h r :
  transformHeader h initial_result = Ok r ->
  views r <> [] /\ sort_slot r = None /\ group_slot r = None /\ limit_slot r = None.
Proof.
  unfold transformHeader. destruct h as [fields showId|format showId| |field];
    try discriminate.
  destruct fields as [|nf fields].
  - destruct showId; intros H; inv_ok; repeat split; discriminate.
  - intros H. bind_inv H. destruct (Nat.ltb _ _); inv_ok; repeat split; discriminate.
Qed.

(** X8.  SORT, GROUP BY and LIMIT each write one slot of the view.  For
    SORT and GROUP BY the last clause decides: the sort of the view is
    the lowering of the fields of the last SORT, the grouping is the
    lowered field of the last GROUP BY.  For LIMIT the last clause that
    writes a number decides, a clause writing the number of a number
    literal, else the integer [parseInt] reads from its lowered amount: a
    later clause that writes none leaves the limit as it was.  A slot no
    clause writes is absent.  The amounts are plain, and the numbers
    integers a JavaScript number holds exactly. *)
Theorem last_clause_wins
    (query : Query) (placeFiltersInView : bool) (result : Config) :
  forallb plain_limit (operations query) = true ->
  transform query placeFiltersInView = Ok result ->
  match last_sort (operations query) with
  | Some fields =>
      exists entries, sort_entries fields = Ok entries
                      /\ sort_slot result = Some entries
  | None => sort_slot result = None
  end
  /\ match last_group (operations query) with
     | Some field =>
         exists g, transformFieldExpression (nf_field field) = Ok g
                   /\ group_slot result = Some g
     | None => group_slot result = None
     end
  /\ limit_slot result = last_limit_written (operations query).
Proof.
  intros _ H. destruct (transform_steps _ _ _ H) as (r0 & w & r & H0 & Hops & _ & ->).
  destruct (transformHeader_slots _ _ H0) as (Hne & Hs & Hg & Hl).
  pose proof (apply_operations_slots _ _ _ _ _ Hops Hne) as Hslots.
  rewrite Hs, Hg, Hl in Hslots.
  assert (Hlimit : match last_limit_written (operations query) with
                   | Some n => Some n
                   | None => None
                   end = last_limit_written (operations query))
    by (destruct (last_limit_written (operations query)); reflexivity).
  rewrite Hlimit in Hslots.
  assert (Hsame : forall c,
             first_view (if truthy c
                         then if placeFiltersInView
                              then update_view (set_view_filters c) r
                              else set_filters c r
                         else r)
             = (if (truthy c && placeFiltersInView)%bool
                then option_map (set_view_filters c) (first_view r)
                else first_view r)).
  { intros c. destruct (truthy c); [destruct placeFiltersInView|]; try reflexivity.
    destruct r as [fl fm d [|v vs]]; reflexivity. }
  cbv zeta. unfold sort_slot, group_slot, limit_slot in *. rewrite Hsame.
  destruct (truthy _ && placeFiltersInView)%bool; [|exact Hslots].
  destruct (first_view r) as [v|]; exact Hslots.
Qed.

(** X9.  The lowered fields of a SORT clause are as many as the fields of
    the clause and in the same order, each with its lowered expression as
    column and its direction spelled [asc] or [desc]. *)
Theorem sort_entries_in_order (fields : list QuerySortBy) (entries : list SortEntry) :
  sort_entries fields = Ok entries ->
  Forall2 (fun f entry =>
             transformFieldExpression (sb_field f) = Ok (column entry)
             /\ direction entry = direction_text (sb_direction f))
          fields entries.
Proof.
  revert entries. induction fields as [|f fields IH]; simpl; intros entries H.
  - inv_ok. constructor.
  - bind_inv H. bind_inv H. inv_ok. constructor; [|apply IH; assumption].
    simpl. split; [exact Ha|]. destruct (sb_direction f); reflexivity.
Qed.

(** ** Renaming of properties *)

Lemma trimEnd_idempotent s : trimEnd (trimEnd s) = trimEnd s.
Proof.
  induction s as [|c s IH]; [reflexivity|].
  cbn [trimEnd]. destruct (is_space c && is_empty (trimEnd s))%bool eqn:E;
    [reflexivity|].
  cbn [trimEnd]. rewrite IH, E. reflexivity.
Qed.

Lemma drop_while_trimEnd s :
  drop_while is_space s = s -> drop_while is_space (trimEnd s) = trimEnd s.
Proof.
  destruct s as [|c s]; [reflexivity|]. cbn [drop_while trimEnd].
  destruct (is_space c) eqn:Hc.
  - intros H. exfalso.
    assert (Hlen : forall t, (String.length (drop_while is_space t) <= String.length t)%nat).
    { induction t as [|d t IHt]; simpl; [lia|]. destruct (is_space d); simpl; lia. }
    specialize (Hlen s). rewrite H in Hlen. simpl in Hlen. lia.
  - intros _. simpl. rewrite Hc. reflexivity.
Qed.

Lemma drop_while_fixed s :
  drop_while is_space (drop_while is_space s) = drop_while is_space s.
Proof.
  induction s as [|c s IH]; [reflexivity|]. cbn [drop_while].
  destruct (is_space c) eqn:Hc; [exact IH|]. cbn [drop_while]. rewrite Hc. reflexivity.
Qed.

Lemma trim_idempotent s : trim (trim s) = trim s.
Proof.
  unfold trim. rewrite (drop_while_trimEnd _ (drop_while_fixed s)).
  apply trimEnd_idempotent.
Qed.







(** ** Function calls *)

Lemma lower_char_idempotent c : lower_char (lower_char c) = lower_char c.
Proof.
  unfold lower_char. destruct (is_upper c) eqn:Hu; [|rewrite Hu; reflexivity].
  assert (Hlow : is_upper (ascii_of_N (code c + 32)) = false).
  { unfold is_upper, code in *. apply andb_prop in Hu as [H1 H2].
    apply N.leb_le in H1, H2. rewrite N_ascii_embedding by lia.
    apply andb_false_iff. right. apply N.leb_gt. lia. }
  rewrite Hlow. reflexivity.
Qed.

Lemma toLowerCase_idempotent s : toLowerCase (toLowerCase s) = toLowerCase s.
Proof.
  unfold toLowerCase. induction s as [|c s IH]; [reflexivity|].
  cbn [map_chars]. rewrite lower_char_idempotent, IH. reflexivity.
Qed.

(** X11.  Function names are matched without regard to case: a call of a
    function of the table of known functions lowers as the call written
    in lower case does, value or exception. *)
Theorem function_names_ignore_case (name : string) (arguments : list Field) :
  table_get functionMap (toLowerCase name) <> None ->
  transformFieldExpression (FunctionField (VariableField name) arguments)
  = transformFieldExpression
      (FunctionField (VariableField (toLowerCase name)) arguments).
Proof.
  intros Hknown. rewrite !lower_call. unfold transformFunction. cbv zeta.
  rewrite toLowerCase_idempotent.
  destruct (table_get functionMap (toLowerCase name)); [reflexivity | contradiction].
Qed.

Lemma function_names_ignore_case_witness :
  transformFieldExpression
    (FunctionField (VariableField "CONTAINS")
       [VariableField "tags"; LiteralField (LString "urgent")])
  = transformFieldExpression
      (FunctionField (VariableField "contains")
         [VariableField "tags"; LiteralField (LString "urgent")]).
Proof.
  refine (function_names_ignore_case "CONTAINS" _ _). discriminate.
Defined.

Lemma last_char_app s c : last_char (s +:+ String c EmptyString) = Some c.
Proof.
  induction s as [|d s IH]; [reflexivity|].
  rewrite append_cons. cbn [last_char]. rewrite IH.
  destruct (s +:+ String c EmptyString) eqn:E; [|reflexivity].
  destruct s; discriminate.
Qed.

Lemma drop_last_app s c : drop_last (s +:+ String c EmptyString) = s.
Proof.
  induction s as [|d s IH]; [reflexivity|].
  rewrite append_cons. cbn [drop_last]. rewrite IH.
  destruct (s +:+ String c EmptyString) eqn:E; [|reflexivity].
  destruct s; discriminate.
Qed.

(** Quoting a text and stripping the quotes gives the text back. *)
Lemma strip_quotes_quoted s : strip_quotes (quoted s) = s.
Proof.
  unfold strip_quotes, quoted. rewrite Ascii.eqb_refl.
  unfold endsWithChar. rewrite last_char_app, Ascii.eqb_refl.
  apply drop_last_app.
Qed.

Lemma date_call_known name arguments lowered :
  toLowerCase name = "date" ->
  transformFunction (VariableField name) arguments lowered
  = transformFunction (VariableField "date") arguments lowered.
Proof.
  intros Hname. unfold transformFunction. cbv zeta. rewrite Hname. reflexivity.
Qed.

(** X12.  [date(today)], [date(tomorrow)] and [date(yesterday)] lower to
    [now()], [now() + "1 day"] and [now() + "-1 day"]: with the function
    name and the day in any letter case, and with the day written as a
    bare word or as a string. *)
Theorem relative_dates (name keyword expected : string) :
  toLowerCase name = "date" ->
  In (toLowerCase keyword, expected) relative_days ->
  transformFieldExpression
    (FunctionField (VariableField name) [VariableField keyword])
  = Ok (JStr expected)
  /\ transformFieldExpression
       (FunctionField (VariableField name) [LiteralField (LString keyword)])
     = Ok (JStr expected).
Proof.
  intros Hname Hin. rewrite !lower_call, !(date_call_known _ _ _ Hname).
  assert (Hrel : relative_date (toLowerCase keyword) = Some expected).
  { simpl in Hin.
    repeat (destruct Hin as [Hin|Hin];
            [injection Hin as Hk He; subst expected; rewrite <- Hk; reflexivity|]).
    destruct Hin. }
  split.
  - unfold transformFunction. cbn -[relative_date toLowerCase].
    rewrite Hrel. reflexivity.
  - unfold transformFunction. cbn -[relative_date toLowerCase strip_quotes quoted].
    rewrite strip_quotes_quoted, Hrel. reflexivity.
Qed.

Lemma relative_dates_witness :
  transformFieldExpression
    (FunctionField (VariableField "Date") [VariableField "Tomorrow"])
  = Ok (JStr ("now() + " +:+ quoted "1 day"))
  /\ transformFieldExpression
       (FunctionField (VariableField "Date") [LiteralField (LString "Tomorrow")])
     = Ok (JStr ("now() + " +:+ quoted "1 day")).
Proof.
  refine (relative_dates "Date" "Tomorrow" _ eq_refl _). simpl. tauto.
Defined.

(** X13.  [contains(tags, "x")] lowers to the predicate the source [#x]
    lowers to, [file.hasTag("x")], for every tag text [x] that does not
    itself start with [#]. *)
Theorem contains_tags_is_tag_source (name x : string) :
  toLowerCase name = "contains" ->
  startsWith x "#" = false ->
  transformFieldExpression
    (FunctionField (VariableField name)
       [VariableField "tags"; LiteralField (LString x)])
  = Ok (JStr ("file.hasTag(" +:+ quoted x +:+ ")"))
  /\ transformSource (Tag x) = JStr ("file.hasTag(" +:+ quoted x +:+ ")")
  /\ transformSource (Tag ("#" +:+ x)) = JStr ("file.hasTag(" +:+ quoted x +:+ ")").
Proof.
  intros Hname Hx. split; [|split].
  - rewrite lower_call. unfold transformFunction. cbv zeta. rewrite Hname.
    cbn -[strip_quotes quoted]. rewrite strip_quotes_quoted. reflexivity.
  - cbn [transformSource]. rewrite Hx. reflexivity.
  - cbn [transformSource]. unfold startsWith.
    assert (Hp : String.prefix "#" ("#" +:+ x) = true)
      by (apply String.prefix_correct; destruct x; reflexivity).
    rewrite Hp. reflexivity.
Qed.

Lemma contains_tags_is_tag_source_witness :
  transformFieldExpression
    (FunctionField (VariableField "contains")
       [VariableField "tags"; LiteralField (LString "urgent")])
  = Ok (transformSource (Tag "#urgent")).
Proof.
  exact (proj1 (contains_tags_is_tag_source "contains" "urgent" eq_refl eq_refl)).
Defined.

Lemma padStart2_two_digits z :
  1 <= z <= 31 -> String.length (padStart2 (of_Z z)) = 2%nat.
Proof.
  intros Hz. rewrite <- (Z2Nat.id z) by lia.
  assert (Hn : (Z.to_nat z <= 31)%nat) by lia.
  assert (Hp : (1 <= Z.to_nat z)%nat) by lia.
  revert Hn Hp. generalize (Z.to_nat z). intros n Hn Hp.
  destruct n as [|n]; [lia|].
  do 31 (destruct n as [|n]; [reflexivity|]). lia.
Qed.

Lemma append_not_empty a b : is_empty a = false -> is_empty (a +:+ b) = false.
Proof. destruct a; [discriminate | reflexivity]. Qed.

(** X14.  [date(Y-M-D)], whose argument the parser gives as the
    subtraction [Y - M - D] of three numbers, lowers to the date
    constructor [date("Y-MM-DD")] when the year is between 1900 and 2100,
    the month between 1 and 12 and the day between 1 and 31; the month
    and the day are padded with a zero to two digits. *)
Theorem date_shorthand_lowering (name : string) (year month day : Z) :
  toLowerCase name = "date" ->
  1900 <= year <= 2100 -> 1 <= month <= 12 -> 1 <= day <= 31 ->
  transformFieldExpression
    (FunctionField (VariableField name) [date_shorthand year month day])
  = Ok (JStr ("date("
              +:+ quoted (of_Z year +:+ "-" +:+ padStart2 (of_Z month)
                          +:+ "-" +:+ padStart2 (of_Z day))
              +:+ ")"))
  /\ String.length (padStart2 (of_Z month)) = 2%nat
  /\ String.length (padStart2 (of_Z day)) = 2%nat.
Proof.
  intros Hname Hy Hm Hd. split; [|split; apply padStart2_two_digits; lia].
  rewrite lower_call, (date_call_known _ _ _ Hname).
  unfold transformFunction, date_shorthand.
  cbn -[of_Z padStart2 quoted Z.leb is_empty].
  assert (Hrange : (1900 <=? year) && (year <=? 2100) && (1 <=? month)
                   && (month <=? 12) && (1 <=? day) && (day <=? 31) = true).
  { repeat (apply andb_true_intro; split); apply Z.leb_le; lia. }
  rewrite Hrange.
  assert (Hne : is_empty (of_Z year +:+ "-" +:+ padStart2 (of_Z month)
                          +:+ "-" +:+ padStart2 (of_Z day)) = false).
  { apply append_not_empty. rewrite <- (Z2N.id year) by lia. apply of_N_not_empty. }
  rewrite Hne. reflexivity.
Qed.

Lemma date_shorthand_lowering_witness :
  transformFieldExpression
    (FunctionField (VariableField "date") [date_shorthand 2024 1 5])
  = Ok (JStr ("date(" +:+ quoted "2024-01-05" +:+ ")")).
Proof.
  exact (proj1 (date_shorthand_lowering "date" 2024 1 5 eq_refl
                  ltac:(lia) ltac:(lia) ltac:(lia))).
Defined.

(** ** Columns *)







Lemma transformColumns_no_formula fields : forall index cols cols',
  Forall (fun nf => isFormulaField (nf_field nf) = false) fields ->
  transformColumns fields index cols = Ok cols' ->
  col_formulas cols' = col_formulas cols.
Proof.
  induction fields as [|nf fields IH]; intros index cols cols' Hall H.
  - simpl in H. inv_ok. reflexivity.
  - apply Forall_cons in Hall as [Hnf Hrest].
    cbn [transformColumns] in H. bind_inv H.
    rewrite (IH _ _ _ Hrest H). unfold transformNamedField in Ha.
    rewrite Hnf in Ha. bind_inv Ha. inv_ok. reflexivity.
Qed.

(** X17.  A table whose columns are all plain references (variables and
    property accesses on them) gets no [formulas] entry at all. *)
Theorem plain_columns_have_no_formulas
    (fields : list NamedField) (showId : bool) (from : Source)
    (clauses : list QueryOperation) (placeFiltersInView : bool)
    (result : Config) :
  Forall (fun nf => isFormulaField (nf_field nf) = false) fields ->
  transform {| header := TableQuery fields showId; source := from;
               operations := clauses |} placeFiltersInView = Ok result ->
  formulas result = None.
Proof.
  intros Hall H. destruct (transform_columns _ _ _ H) as (hr & Hhr & _ & Hf & _).
  cbn [header] in Hhr. rewrite Hf. unfold transformHeader in Hhr.
  destruct fields as [|nf fields].
  - destruct showId; inv_ok; reflexivity.
  - bind_inv Hhr. rewrite (transformColumns_no_formula _ _ _ _ Hall Ha) in Hhr.
    assert (Hempty : col_formulas (initial_columns showId) = ∅)
      by (destruct showId; reflexivity).
    rewrite Hempty, map_size_empty in Hhr.
    change (0 <? 0)%nat with false in Hhr. cbv iota in Hhr.
    inv_ok. reflexivity.
Qed.

Lemma plain_columns_have_no_formulas_witness :
  exists result,
    transform (Sample.two_columns true) true = Ok result
    /\ formulas result = None.
Proof.
  destruct (transform (Sample.two_columns true) true) as [result|e] eqn:Hresult;
    [|vm_compute in Hresult; discriminate].
  exists result. split; [reflexivity|].
  refine (plain_columns_have_no_formulas _ true (Folder "books") _ true result _ Hresult).
  repeat constructor.
Defined.

(** ** Sources *)

(** X18.  A source lowers to no predicate exactly when it has none in it:
    when every leaf under its negations and combinations is the empty
    source or a folder with the empty path. *)
Theorem source_without_predicate (s : Source) :
  transformSource s = JNull <-> has_predicate s = false.
Proof.
  induction s as [folder|tag|file|child IH|op l IHl r IHr| |]; simpl.
  - destruct (is_empty folder); simpl; split; congruence.
  - split; discriminate.
  - split; discriminate.
  - rewrite <- IH. destruct (source_shape child) as [-> | (_ & Ht & _)].
    + simpl. tauto.
    + rewrite Ht. simpl. split; [discriminate|].
      intros Hnull. rewrite Hnull in Ht. discriminate.
  - rewrite orb_false_iff, <- IHl, <- IHr.
    destruct (source_shape l) as [Hl | (Nl & Tl & Wl)];
      destruct (source_shape r) as [Hr | (Nr & Tr & Wr)];
      rewrite ?Hl, ?Hr, ?Tl, ?Tr; simpl.
    + tauto.
    + split; [intros E; rewrite E in Nr; discriminate | intros [_ E]; exact E].
    + split; [intros E; rewrite E in Nl; discriminate | intros [E _]; exact E].
    + assert (Hk : is_logical_key (if String.eqb op "&" then "and" else "or") = true)
        by (destruct (String.eqb op "&"); reflexivity).
      destruct (flatten_pair _ _ _ Hk Nl Nr Wl Wr) as [-> _].
      split; [discriminate|]. intros [E _]. rewrite E in Nl. discriminate.
  - tauto.
  - tauto.
Qed.

(** X19.  How two sources combine.  A side that lowers to no predicate
    is dropped and the other side is the result.  Two sides that lower to
    predicates give one group, [and] for the operator [&] and [or] for any
    other, whose children are the two lowered sides, a side that is itself
    a group of that operator giving its children; the group keeps the
    flattening invariant. *)
Theorem source_combination (op : string) (sleft sright : Source) :
  let left := transformSource sleft in
  let right := transformSource sright in
  let key := if String.eqb op "&" then "and" else "or" in
  (left = JNull -> transformSource (SourceBinaryOp op sleft sright) = right)
  /\ (right = JNull -> transformSource (SourceBinaryOp op sleft sright) = left)
  /\ (left <> JNull -> right <> JNull ->
      transformSource (SourceBinaryOp op sleft sright)
      = JObj key (flatten_step key left ++ flatten_step key right)
      /\ well_grouped (transformSource (SourceBinaryOp op sleft sright)) = true).
Proof.
  intros left right key. subst left right key. cbn [transformSource]. cbv zeta.
  pose proof (source_shape sleft) as HL. pose proof (source_shape sright) as HR.
  set (L := transformSource sleft) in *. set (R := transformSource sright) in *.
  clearbody L R.
  assert (Hk : is_logical_key (if String.eqb op "&" then "and" else "or") = true)
    by (destruct (String.eqb op "&"); reflexivity).
  destruct HL as [-> | (Nl & Tl & Wl)]; destruct HR as [-> | (Nr & Tr & Wr)];
    rewrite ?Tl, ?Tr; cbn [truthy negb andb].
  - split; [reflexivity|]. split; [reflexivity|]. congruence.
  - split; [reflexivity|]. split; [intros E; rewrite E in Nr; discriminate|].
    congruence.
  - split; [intros E; rewrite E in Nl; discriminate|]. split; [reflexivity|].
    congruence.
  - split; [intros E; rewrite E in Nl; discriminate|].
    split; [intros E; rewrite E in Nr; discriminate|]. intros _ _.
    destruct (flatten_pair _ L R Hk Nl Nr Wl Wr) as [-> Hw].
    split; [reflexivity | exact Hw].
Qed.

Lemma source_combination_witness :
  transformSource Sample2.nested_sources
  = JObj "and" [JStr ("file.hasTag(" +:+ quoted "book" +:+ ")");
                JStr ("file.hasTag(" +:+ quoted "read" +:+ ")");
                JStr ("file.inFolder(" +:+ quoted "library" +:+ ")")].
Proof.
  refine (proj1 (proj2 (proj2 (source_combination "&" (Tag "#book")
            (SourceBinaryOp "&" (Tag "read") (Folder "library")))) _ _));
    discriminate.
Defined.

(** ** The properties above at sample queries *)

Lemma transform_returns_iff_witness :
  exists result, transform Sample2.every_clause_twice true = Ok result.
Proof.
  apply (proj2 (transform_returns_iff Sample2.every_clause_twice true)).
  split; [reflexivity|].
  repeat (apply List.Forall_cons;
          [unfold lowers; eexists; vm_compute; reflexivity|]).
  apply List.Forall_nil.
Defined.

Lemma transform_single_view_witness :
  exists result view,
    transform Sample2.every_clause_twice false = Ok result
    /\ views result = [view]
    /\ view_type view = "table"
    /\ view_name view = "Default view"
    /\ view_filters view = None.
Proof.
  destruct (transform Sample2.every_clause_twice false) as [result|e] eqn:Hresult;
    [|vm_compute in Hresult; discriminate].
  destruct (transform_single_view _ _ _ Hresult) as (view & Hviews & Htype & Hname & Hnone).
  exists result, view. split; [reflexivity|]. split; [exact Hviews|].
  split; [exact Htype|]. split; [exact Hname | exact Hnone].
Defined.

Lemma transform_filter_witness :
  exists result view w,
    transform Sample2.every_clause_twice true = Ok result
    /\ views result = [view]
    /\ transformFieldExpression Sample.B = Ok w
    /\ view_filters view
       = (let c := combineFilters (transformSource (Tag "#book")) w in
          if truthy c then Some c else None).
Proof.
  destruct (transform Sample2.every_clause_twice true) as [result|e] eqn:Hresult;
    [|vm_compute in Hresult; discriminate].
  destruct (transform_filter _ _ Hresult) as (view & w & Hviews & Hw & Hfilter).
  exists result, view, w. split; [reflexivity|]. split; [exact Hviews|].
  split; [exact Hw | exact Hfilter].
Defined.

Lemma combine_source_and_where_witness :
  combineFilters (transformSource Sample2.nested_sources) (JStr "b == 2")
  = JObj "and"
      (flatten_step "and" (transformSource Sample2.nested_sources)
       ++ flatten_step "and" (JStr "b == 2")).
Proof.
  refine (proj2 (proj2 (proj2
            (combine_source_and_where Sample2.nested_sources Sample.B
               (JStr "b == 2") _))) _ _).
  - vm_compute. reflexivity.
  - vm_compute. discriminate.
  - reflexivity.
Defined.

Lemma last_clause_wins_witness :
  exists result,
    transform Sample2.limits_and_sorts true = Ok result
    /\ (exists entries,
          sort_entries [mkSortBy (VariableField "b") ascending] = Ok entries
          /\ sort_slot result = Some entries)
    /\ (exists g, transformFieldExpression (VariableField "c") = Ok g
                  /\ group_slot result = Some g)
    /\ limit_slot result = Some 5%Z.
Proof.
  destruct (transform Sample2.limits_and_sorts true) as [result|e] eqn:Hresult;
    [|vm_compute in Hresult; discriminate].
  assert (Hplain : forallb plain_limit (operations Sample2.limits_and_sorts) = true)
    by (vm_compute; reflexivity).
  exists result. split; [reflexivity|].
  exact (last_clause_wins _ _ _ Hplain Hresult).
Defined.

Lemma sort_entries_in_order_witness :
  exists entries,
    sort_entries Sample2.by_title_then_a = Ok entries
    /\ Forall2 (fun f entry =>
                  transformFieldExpression (sb_field f) = Ok (column entry)
                  /\ direction entry = direction_text (sb_direction f))
               Sample2.by_title_then_a entries.
Proof.
  destruct (sort_entries Sample2.by_title_then_a) as [entries|e] eqn:Hentries;
    [|vm_compute in Hentries; discriminate].
  exists entries. split; [reflexivity|].
  exact (sort_entries_in_order _ _ Hentries).
Defined.


(** ** The result type *)

Section ResultLaws.

Import ResultType.

Context {T U V E : Type}.

(** X20.  [Result] is a monad with [Result.success] as unit and [flatMap]
    as bind, and [map] is [flatMap] after [success]. *)
Theorem result_monad_laws
    (x : T) (r : Result T E) (f : T -> Result U E) (g : U -> Result V E)
    (h : T -> U) :
  flatMap f (success x) = f x
  /\ flatMap success r = r
  /\ flatMap g (flatMap f r) = flatMap (fun a => flatMap g (f a)) r
  /\ map h r = flatMap (fun a => success (h a)) r.
Proof.
  split; [reflexivity|]. destruct r as [value|error]; repeat split; reflexivity.
Qed.

(** X21.  [flatMap2] runs its two results in order: it is [flatMap] on the
    first around [flatMap] on the second, so the failure it returns is
    the first one; and [map2] succeeds exactly when both results do. *)
Theorem result_pairs_in_order
    (first : Result T E) (second : Result U E)
    (f : T -> U -> Result V E) (g : T -> U -> V) :
  flatMap2 first second f
  = flatMap (fun a => flatMap (fun b => f a b) second) first
  /\ (forall error, first = Failure error ->
      flatMap2 first second f = Failure error)
  /\ successful (map2 first second g)
     = (successful first && successful second)%bool.
Proof.
  destruct first as [a|e1], second as [b|e2]; repeat split; try reflexivity;
    intros error Herror; try discriminate; injection Herror as ->; reflexivity.
Qed.

End ResultLaws.

(** ** The entry point *)

(** X22.  A query that parses and is no table gives the comment line that
    names its keyword, whatever the parser, the printer and the placement
    of the filters: the printer is not reached. *)
Theorem unsupported_queries_give_a_comment
    (parseQuery : string -> outcome (ResultType.Result Query string))
    (dump : Config -> outcome string)
    (dataviewQuery : string) (placeFiltersInView : bool) (query : Query) :
  parseQuery dataviewQuery = Ok (ResultType.Success query) ->
  is_table (header query) = false ->
  parseDataviewTable parseQuery dump dataviewQuery placeFiltersInView
  = "# Error parsing Dataview query: " +:+ header_keyword (header query)
    +:+ " queries are not supported. Please use TABLE queries instead.".
Proof.
  intros Hparse Hheader. unfold parseDataviewTable, toYaml.
  rewrite Hparse. cbn [bind]. unfold transform.
  destruct (header query) as [fields showId|format showId| |c];
    [discriminate| | |]; reflexivity.
Qed.

Lemma unsupported_queries_give_a_comment_witness :
  parseDataviewTable Sample2.parse_as_list Sample2.print_nothing
    "LIST FROM notes WHERE a = 1" true
  = "# Error parsing Dataview query: LIST queries are not supported. Please use TABLE queries instead.".
Proof.
  exact (unsupported_queries_give_a_comment Sample2.parse_as_list
           Sample2.print_nothing "LIST FROM notes WHERE a = 1" true
           Sample.list_query eq_refl eq_refl).
Defined.

(** ** The splitter of the text converter *)

Section Splitter.

Import Legacy.

Lemma append_char_assoc x c a : (x +:+ char_text c) +:+ a = x +:+ String c a.
Proof.
  induction x as [|d x IH]; [reflexivity|].
  rewrite !append_cons, IH. reflexivity.
Qed.

Lemma split_step_fields previous c st :
  (split_fields (split_step previous c st) = split_fields st
   /\ currentField (split_step previous c st) = currentField st +:+ char_text c)
  \/ (split_fields (split_step previous c st)
      = split_fields st ++ [trim (currentField st)]
      /\ c = ","%char /\ parenDepth st = 0 /\ inQuotes st = false).
Proof.
  unfold split_step.
  destruct (is_quote c && unescaped previous)%bool.
  - destruct (negb (inQuotes st)); [left; split; reflexivity|].
    destruct (String.eqb _ _); left; split; reflexivity.
  - destruct (Ascii.eqb c "(" && negb (inQuotes st))%bool;
      [left; split; reflexivity|].
    destruct (Ascii.eqb c ")" && negb (inQuotes st))%bool;
      [left; split; reflexivity|].
    destruct (Ascii.eqb c "," && Z.eqb (parenDepth st) 0
              && negb (inQuotes st))%bool eqn:E;
      [|left; split; reflexivity].
    right. apply andb_true_iff in E as [E Hq]. apply andb_true_iff in E as [Hc Hd].
    apply Ascii.eqb_eq in Hc. apply Z.eqb_eq in Hd.
    apply negb_true_iff in Hq. cbn [split_fields]. auto.
Qed.

Lemma split_loop_grows text : forall previous st,
  (List.length (split_fields st)
   <= List.length (split_fields (split_loop previous text st)))%nat.
Proof.
  induction text as [|c text IH]; intros previous st; [simpl; lia|].
  cbn [split_loop]. specialize (IH (Some c) (split_step previous c st)).
  destruct (split_step_fields previous c st) as [[Hf _] | [Hf _]];
    rewrite Hf in IH; [|rewrite length_app in IH; simpl in IH]; lia.
Qed.

Lemma split_comma previous st rest :
  inQuotes st = false -> parenDepth st = 0 ->
  split_loop previous (String ","%char rest) st
  = split_loop (Some ","%char) rest
      {| split_fields := split_fields st ++ [trim (currentField st)];
         currentField := EmptyString; parenDepth := parenDepth st;
         inQuotes := inQuotes st; quoteChar := quoteChar st |}.
Proof.
  intros Hq Hd. cbn [split_loop]. f_equal. unfold split_step.
  rewrite Hq, Hd. reflexivity.
Qed.

Lemma split_closed_prefix a : forall previous st rest,
  List.length (split_fields (split_loop previous a st))
  = List.length (split_fields st) ->
  inQuotes (split_loop previous a st) = false ->
  parenDepth (split_loop previous a st) = 0 ->
  exists st',
    split_loop previous (a +:+ String ","%char rest) st
    = split_loop (Some ","%char) rest st'
    /\ same_scan (split_fields st ++ [trim (currentField st +:+ a)])
         st' split_start.
Proof.
  induction a as [|c a IH]; intros previous st rest Hlen Hq Hd.
  - cbn [split_loop] in Hlen, Hq, Hd.
    change (EmptyString +:+ String ","%char rest) with (String ","%char rest).
    rewrite (split_comma previous st rest Hq Hd). eexists. split; [reflexivity|].
    unfold same_scan. cbn. rewrite append_empty_r, app_nil_r.
    repeat split; try assumption. discriminate.
  - rewrite append_cons. cbn [split_loop] in *.
    pose proof (split_loop_grows a (Some c) (split_step previous c st)) as Hgrow.
    destruct (split_step_fields previous c st) as [[Hf Hc] | [Hf _]].
    + destruct (IH (Some c) (split_step previous c st) rest) as (st' & Hrun & Hsame);
        [rewrite Hf; exact Hlen | exact Hq | exact Hd |].
      exists st'. split; [exact Hrun|].
      rewrite Hf, Hc, append_char_assoc in Hsame. exact Hsame.
    + rewrite Hf, length_app in Hgrow. simpl in Hgrow. lia.
Qed.

Lemma split_step_same prefix p1 p2 c st1 st2 :
  same_scan prefix st1 st2 -> unescaped p1 = unescaped p2 ->
  same_scan prefix (split_step p1 c st1) (split_step p2 c st2).
Proof.
  intros (Hf & Hc & Hd & Hq & Hk) Hp. unfold same_scan, split_step.
  rewrite Hp, Hc, Hd, Hq.
  destruct (is_quote c && unescaped p2)%bool.
  - destruct (inQuotes st2) eqn:Hin; cbn [negb].
    + rewrite (Hk eq_refl).
      destruct (String.eqb _ _); cbn; repeat split; auto; discriminate.
    + cbn. repeat split; auto.
  - destruct (Ascii.eqb c "(" && negb (inQuotes st2))%bool;
      [cbn; repeat split; auto; congruence|].
    destruct (Ascii.eqb c ")" && negb (inQuotes st2))%bool;
      [cbn; repeat split; auto; congruence|].
    destruct (Ascii.eqb c "," && Z.eqb (parenDepth st2) 0
              && negb (inQuotes st2))%bool;
      cbn; repeat split; auto.
    rewrite Hf, app_assoc. reflexivity.
Qed.

Lemma split_loop_same prefix text : forall p1 p2 st1 st2,
  same_scan prefix st1 st2 -> unescaped p1 = unescaped p2 ->
  same_scan prefix (split_loop p1 text st1) (split_loop p2 text st2).
Proof.
  induction text as [|c text IH]; intros p1 p2 st1 st2 Hsame Hp; [exact Hsame|].
  cbn [split_loop]. apply IH; [|reflexivity].
  exact (split_step_same prefix p1 p2 c st1 st2 Hsame Hp).
Qed.

Lemma split_finish_same prefix st1 st2 :
  same_scan prefix st1 st2 -> split_finish st1 = prefix ++ split_finish st2.
Proof.
  intros (Hf & Hc & _). unfold split_finish. rewrite Hf, Hc.
  destruct (is_empty (trim (currentField st2))); [reflexivity|].
  rewrite app_assoc. reflexivity.
Qed.

(** X23.  The splitter splits at a comma outside quotes and parentheses:
    after a text that is closed, a comma ends the first field, which is
    that text trimmed, and the rest is split as if it were alone. *)
Theorem split_at_top_level_comma (first rest : string) :
  closed_text first = true ->
  parseDataviewFields (first +:+ String ","%char rest)
  = trim first :: parseDataviewFields rest.
Proof.
  unfold closed_text. cbv zeta. intros Hclosed.
  apply andb_true_iff in Hclosed as [Hclosed Hlen].
  apply andb_true_iff in Hclosed as [Hq Hd].
  apply negb_true_iff in Hq. apply Z.eqb_eq in Hd. apply Nat.eqb_eq in Hlen.
  destruct (split_closed_prefix first None split_start rest)
    as (st' & Hrun & Hsame); [exact Hlen | exact Hq | exact Hd |].
  unfold parseDataviewFields. rewrite Hrun.
  rewrite (split_finish_same _ _ _
             (split_loop_same _ rest (Some ","%char) None st' split_start
                Hsame eq_refl)).
  reflexivity.
Qed.

Lemma split_at_top_level_comma_witness :
  parseDataviewFields "sum(a, b) AS 'x, y', c"
  = ["sum(a, b) AS 'x, y'"; "c"].
Proof.
  exact (split_at_top_level_comma "sum(a, b) AS 'x, y'" " c" eq_refl).
Defined.

Lemma split_step_trimmed previous c st :
  Forall (fun f => trim f = f) (split_fields st) ->
  Forall (fun f => trim f = f) (split_fields (split_step previous c st)).
Proof.
  intros Hall.
  destruct (split_step_fields previous c st) as [[-> _] | [-> _]];
    [exact Hall|].
  apply Forall_app. split; [exact Hall|].
  constructor; [apply trim_idempotent | constructor].
Qed.

Lemma split_loop_trimmed text : forall previous st,
  Forall (fun f => trim f = f) (split_fields st) ->
  Forall (fun f => trim f = f) (split_fields (split_loop previous text st)).
Proof.
  induction text as [|c text IH]; intros previous st Hall; [exact Hall|].
  cbn [split_loop]. apply IH. exact (split_step_trimmed previous c st Hall).
Qed.

(** X24.  Every field the splitter returns is trimmed: it has no white
    space at either end. *)
Theorem split_fields_are_trimmed (fieldsStr : string) :
  Forall (fun f => trim f = f) (parseDataviewFields fieldsStr).
Proof.
  unfold parseDataviewFields, split_finish.
  pose proof (split_loop_trimmed fieldsStr None split_start (List.Forall_nil _)) as Hall.
  destruct (is_empty _); [exact Hall|].
  apply Forall_app. split; [exact Hall|].
  constructor; [apply trim_idempotent | constructor].
Qed.

End Splitter.
